(** * RAGify retrieval pipeline: a shallow embedding and its properties

    The development follows the Python sources of the repository:

    - [web_scraper.py]: [encode_url_to_filename], [decode_filename_to_url],
      [get_urls], [fetch_and_save], [fetch_web_pages];
    - [extract_queries.py]: [extract_queries];
    - [app.py]: the guard on the extracted queries and the fallback around
      [generate_prompt].

    Python [str] values are lists of Unicode code points, [bytes] values
    are lists of integers below 256, both over [Z].  External capabilities
    (search providers, HTTP, the chat model) are oracles of an explicit
    world record, quantified over in the theorems. *)

From Stdlib Require Import String Ascii.
From Stdlib Require Import ZArith List Bool Lia QArith.
From stdpp Require Import base option list gmap sets.

Local Open Scope Z_scope.

(** ** Python strings *)

(** A [str]: a sequence of code points. *)
Abbreviation pystr := (list Z).
(** A [bytes] object. *)
Abbreviation pybytes := (list Z).

Definition chr (a : ascii) : Z := Z.of_N (N_of_ascii a).

(** An ASCII literal of the source, as code points. *)
Definition lit (s : string) : pystr := List.map chr (list_ascii_of_string s).

(** [s.startswith(p)] *)
Fixpoint startswith (p s : pystr) : bool :=
  match p, s with
  | [], _ => true
  | _ :: _, [] => false
  | a :: p', b :: s' => (a =? b) && startswith p' s'
  end.

(** [c in s] *)
Definition contains (c : Z) (s : pystr) : bool := existsb (Z.eqb c) s.

(** ** UTF-8, as [str.encode('utf-8', 'strict')] and
       [bytes.decode('utf-8', 'replace')] *)

Definition is_code_point (c : Z) : Prop := 0 <= c <= 1114111.

Definition is_surrogate (c : Z) : bool := (55296 <=? c) && (c <=? 57343).

(** Unicode scalar values: the code points UTF-8 can carry.  Every
    printable character is one (surrogates have category Cs). *)
Definition is_scalar (c : Z) : Prop := is_code_point c /\ is_surrogate c = false.

(** One code point; [None] is [UnicodeEncodeError]. *)
Definition utf8_encode_char (c : Z) : option pybytes :=
  if c <? 0 then None
  else if c <? 128 then Some [c]
  else if c <? 2048 then Some [192 + c / 64; 128 + c mod 64]
  else if c <? 65536 then
    if is_surrogate c then None
    else Some [224 + c / 4096; 128 + (c / 64) mod 64; 128 + c mod 64]
  else if c <=? 1114111 then
    Some [240 + c / 262144; 128 + (c / 4096) mod 64;
          128 + (c / 64) mod 64; 128 + c mod 64]
  else None.

Fixpoint utf8_encode (s : pystr) : option pybytes :=
  match s with
  | [] => Some []
  | c :: s' =>
      match utf8_encode_char c, utf8_encode s' with
      | Some b, Some bs => Some (b ++ bs)
      | _, _ => None
      end
  end.

Definition is_cont (b : Z) : bool := (128 <=? b) && (b <=? 191).

(** Range allowed for the second byte after lead byte [b0]. *)
Definition second_ok (b0 b1 : Z) : bool :=
  if b0 =? 224 then (160 <=? b1) && (b1 <=? 191)
  else if b0 =? 237 then (128 <=? b1) && (b1 <=? 159)
  else if b0 =? 240 then (144 <=? b1) && (b1 <=? 191)
  else if b0 =? 244 then (128 <=? b1) && (b1 <=? 143)
  else is_cont b1.

Definition REPLACEMENT : Z := 65533.

(** The decoder with [errors='replace']: every maximal ill-formed
    subsequence becomes one U+FFFD and decoding resumes after it. *)
Fixpoint utf8_decode (bs : pybytes) : pystr :=
  match bs with
  | [] => []
  | b0 :: t0 =>
      if b0 <? 128 then b0 :: utf8_decode t0
      else if (b0 <? 194) || (244 <? b0) then REPLACEMENT :: utf8_decode t0
      else if b0 <? 224 then
        match t0 with
        | [] => [REPLACEMENT]
        | b1 :: t1 =>
            if is_cont b1
            then ((b0 - 192) * 64 + (b1 - 128)) :: utf8_decode t1
            else REPLACEMENT :: utf8_decode t0
        end
      else if b0 <? 240 then
        match t0 with
        | [] => [REPLACEMENT]
        | b1 :: t1 =>
            if second_ok b0 b1 then
              match t1 with
              | [] => [REPLACEMENT]
              | b2 :: t2 =>
                  if is_cont b2
                  then ((b0 - 224) * 4096 + (b1 - 128) * 64 + (b2 - 128))
                         :: utf8_decode t2
                  else REPLACEMENT :: utf8_decode t1
              end
            else REPLACEMENT :: utf8_decode t0
        end
      else
        match t0 with
        | [] => [REPLACEMENT]
        | b1 :: t1 =>
            if second_ok b0 b1 then
              match t1 with
              | [] => [REPLACEMENT]
              | b2 :: t2 =>
                  if is_cont b2 then
                    match t2 with
                    | [] => [REPLACEMENT]
                    | b3 :: t3 =>
                        if is_cont b3
                        then ((b0 - 240) * 262144 + (b1 - 128) * 4096
                              + (b2 - 128) * 64 + (b3 - 128))
                               :: utf8_decode t3
                        else REPLACEMENT :: utf8_decode t2
                    end
                  else REPLACEMENT :: utf8_decode t1
              end
            else REPLACEMENT :: utf8_decode t0
        end
  end.

(** ** [urllib.parse.quote] and [urllib.parse.unquote] *)

(** [_ALWAYS_SAFE]: letters, digits and [_.-~]. *)
Definition always_safe (b : Z) : bool :=
  ((65 <=? b) && (b <=? 90)) || ((97 <=? b) && (b <=? 122))
  || ((48 <=? b) && (b <=? 57))
  || (b =? 95) || (b =? 46) || (b =? 45) || (b =? 126).

(** The upper-case hexadecimal digit of a nibble, as ['%{:02X}'] prints. *)
Definition hexdigit (n : Z) : Z := if n <? 10 then 48 + n else 55 + n.

Definition PERCENT : Z := 37.
Definition SLASH : Z := 47.

(** [_Quoter.__missing__] with [safe=""]. *)
Definition quoter (b : Z) : pystr :=
  if always_safe b then [b]
  else [PERCENT; hexdigit (b / 16); hexdigit (b mod 16)].

(** [quote_from_bytes(bs, safe="")]: nothing to quote when stripping the
    safe bytes leaves nothing, else every byte goes through the quoter. *)
Definition quote_from_bytes (bs : pybytes) : pystr :=
  match bs with
  | [] => []
  | _ => if forallb always_safe bs then bs else flat_map quoter bs
  end.

(** [quote(string, safe="")]; [None] is the [UnicodeEncodeError] of the
    strict encoder. *)
Definition quote (s : pystr) : option pystr :=
  match s with
  | [] => Some []
  | _ => match utf8_encode s with
         | Some bs => Some (quote_from_bytes bs)
         | None => None
         end
  end.

(** [bs.split(sep)] for a one-byte separator. *)
Fixpoint split_on (sep : Z) (s : list Z) : list (list Z) :=
  match s with
  | [] => [[]]
  | c :: r =>
      if c =? sep then [] :: split_on sep r
      else match split_on sep r with
           | h :: t => (c :: h) :: t
           | [] => [[c]]
           end
  end.

(** The value of a hexadecimal digit of [_hexdig], either case. *)
Definition hexval (c : Z) : option Z :=
  if (48 <=? c) && (c <=? 57) then Some (c - 48)
  else if (65 <=? c) && (c <=? 70) then Some (c - 55)
  else if (97 <=? c) && (c <=? 102) then Some (c - 87)
  else None.

(** One item after a [%]: [_hextobyte[item[:2]] + item[2:]], or on
    [KeyError] the [%] put back in front of the item. *)
Definition unquote_item (item : list Z) : list Z :=
  match item with
  | h1 :: h2 :: rest =>
      match hexval h1, hexval h2 with
      | Some a, Some b => (16 * a + b) :: rest
      | _, _ => PERCENT :: item
      end
  | _ => PERCENT :: item
  end.

(** [unquote_to_bytes] on an ASCII [str] (its UTF-8 form is itself). *)
Definition unquote_to_bytes (s : pystr) : pybytes :=
  match s with
  | [] => []
  | _ =>
      match split_on PERCENT s with
      | [] => s
      | [_] => s
      | b0 :: items => b0 ++ flat_map unquote_item items
      end
  end.

(** An ASCII run matched by [_asciire] is unquoted and decoded. *)
Definition flush_run (run : pystr) : pystr :=
  match run with
  | [] => []
  | _ => utf8_decode (unquote_to_bytes run)
  end.

(** The parts [unquote] joins: ASCII runs go through [flush_run],
    what lies between them is kept. *)
Fixpoint unquote_parts (run : pystr) (s : pystr) : pystr :=
  match s with
  | [] => flush_run run
  | c :: s' =>
      if (0 <=? c) && (c <=? 127) then unquote_parts (run ++ [c]) s'
      else flush_run run ++ c :: unquote_parts [] s'
  end.

(** [unquote(string)] with the defaults [encoding='utf-8'],
    [errors='replace']. *)
Definition unquote (s : pystr) : pystr :=
  if contains PERCENT s then unquote_parts [] s else s.

Definition is_byte (b : Z) : Prop := 0 <= b < 256.
Definition is_ascii (c : Z) : Prop := 0 <= c <= 127.

(** What [quote] can output: safe characters, [%] and upper-case hex. *)
Definition quoted_char (c : Z) : Prop :=
  always_safe c = true \/ c = PERCENT \/ 48 <= c <= 57 \/ 65 <= c <= 70.

(** ** web_scraper.py *)

Definition encode_url_to_filename (url : pystr) : option pystr := quote url.

Definition decode_filename_to_url (filename : pystr) : pystr := unquote filename.

(** [s.lower()].  Exact on ASCII, on the Kelvin sign (the one non-ASCII
    code point whose lower case is an ASCII letter) and on U+0130; any
    other code point is kept, and like its true lower-case image it is
    not ASCII, so comparisons with ASCII literals come out the same. *)
Definition lower_char (c : Z) : pystr :=
  if (65 <=? c) && (c <=? 90) then [c + 32]
  else if c =? 8490 then [107]
  else if c =? 304 then [105; 775]
  else [c].

Definition str_lower (s : pystr) : pystr := flat_map lower_char s.

Definition is_http (u : pystr) : bool :=
  startswith (lit "http://") u || startswith (lit "https://") u.

(** Truth value of an optional string: [None] and [""] are falsy. *)
Definition truthy (u : option pystr) : bool :=
  match u with
  | Some (_ :: _) => true
  | _ => false
  end.

(** ** The outside world *)

Inductive io_outcome := IoOk | OpenRaises | WriteRaises.

(** What one [session.get] and the text extraction give: an exception
    (network, timeout, error status, decoding, parsing), or the visible
    text together with how the file system answers the write. *)
Inductive fetch_outcome :=
  | RequestRaises
  | PageText (text : pystr) (io : io_outcome).

(** Oracles for the consumed capabilities.  The first argument counts the
    earlier calls of the same kind, so that an oracle may answer the same
    request differently over time.  A search answers [None] when it
    raises, else the [href] fields (resp. the yielded values), which may
    be missing or empty. *)
Record world := World {
  ddgs_text : nat -> pystr -> Z -> option (list (option pystr));
  google_search : nat -> pystr -> Z -> option (list (option pystr));
  http_get : nat -> pystr -> fetch_outcome
}.

(** ** [get_urls] *)

(** The filtering loop: [seen] is the set, [clean] the list. *)
Definition clean_step (acc : gset pystr * list pystr) (u : option pystr)
  : gset pystr * list pystr :=
  let '(seen, clean) := acc in
  match u with
  | None => acc
  | Some [] => acc
  | Some u =>
      if negb (is_http u) then acc
      else if bool_decide (u ∈ seen) then acc
      else ({[u]} ∪ seen, clean ++ [u])
  end.

Definition clean_urls (urls : list (option pystr)) : list pystr :=
  snd (fold_left clean_step urls (∅, [])).

(** [provider or "duckduckgo"] *)
Definition provider_or_default (provider : option pystr) : pystr :=
  match provider with
  | Some (c :: p) => c :: p
  | _ => lit "duckduckgo"
  end.

(** [k] is the number of searches made before this one. *)
Definition get_urls (w : world) (k : nat) (query : pystr) (num_results : Z)
    (provider : option pystr) : list pystr :=
  let provider := str_lower (provider_or_default provider) in
  let urls :=
    if bool_decide (provider = lit "duckduckgo") then
      match ddgs_text w k query num_results with
      | Some results => List.filter truthy results
      | None => []
      end
    else if bool_decide (provider = lit "google") then
      match google_search w k query num_results with
      | Some results => List.filter truthy results
      | None => []
      end
    else [] in
  clean_urls urls.

(** The pure reading of the filter: keep the well-formed entries ... *)
Definition http_entries (urls : list (option pystr)) : list pystr :=
  omap (fun u => match u with
                 | Some s => if is_http s then Some s else None
                 | None => None
                 end) urls.

(** ... and of each keep the first occurrence, in order. *)
Fixpoint first_occurrences (l : list pystr) : list pystr :=
  match l with
  | [] => []
  | x :: r => x :: filter (fun y => y <> x) (first_occurrences r)
  end.

(** ** [fetch_and_save] and [fetch_web_pages] *)

(** [posixpath.join(a, b)] *)
Definition os_path_join (a b : pystr) : pystr :=
  if startswith [SLASH] b then b
  else match last a with
       | None => a ++ b
       | Some c => if c =? SLASH then a ++ b else a ++ SLASH :: b
       end.

(** [posixpath.basename(p)]: what follows the last separator. *)
Fixpoint basename (p : pystr) : pystr :=
  match p with
  | [] => []
  | c :: r => if contains SLASH r then basename r
              else if c =? SLASH then r else c :: r
  end.

Inductive event :=
  | EvFetch (url : pystr) (result : option pystr)
  | EvSleep (seconds : Q).

(** The directory contents, what happened so far, and the oracle counters. *)
Record state := State {
  files : gmap pystr pybytes;
  trace : list event;
  searches : nat;
  fetches : nat
}.

Definition init : state := State ∅ [] 0 0.

Definition set_files (f : gmap pystr pybytes → gmap pystr pybytes) (st : state) :=
  State (f (files st)) (trace st) (searches st) (fetches st).
Definition log (e : event) (st : state) :=
  State (files st) (trace st ++ [e]) (searches st) (fetches st).
Definition count_search (st : state) :=
  State (files st) (trace st) (S (searches st)) (fetches st).
Definition count_fetch (st : state) :=
  State (files st) (trace st) (searches st) (S (fetches st)).

Inductive exn := UnicodeEncodeError | RetrievalError.

(** A call returns or raises. *)
Inductive outcome (A : Type) :=
  | Returned (a : A)
  | Raised (e : exn).
Arguments Returned {A} a.
Arguments Raised {A} e.

#[global] Instance outcome_ret : MRet outcome := fun A a => Returned a.
#[global] Instance outcome_bind : MBind outcome := fun A B f m =>
  match m with
  | Returned a => f a
  | Raised e => Raised e
  end.

(** [asyncio.sleep(seconds)] *)
Definition sleep (seconds : Q) (st : state) : state := log (EvSleep seconds) st.

(** The file name is computed before the [try]; the request, the parsing,
    [open] and [write] are inside it.  [open(filepath, "w")] creates or
    truncates the file, then [write] encodes the text as UTF-8. *)
Definition fetch_and_save (w : world) (st : state) (url folder : pystr)
  : outcome (state * option pystr) :=
  match encode_url_to_filename url with
  | None => Raised UnicodeEncodeError
  | Some filename =>
      let filepath := os_path_join folder filename in
      let st1 := count_fetch st in
      let failed s := Returned (log (EvFetch url None) s, None) in
      match http_get w (fetches st) url with
      | RequestRaises => failed st1
      | PageText text OpenRaises => failed st1
      | PageText text io =>
          let st2 := set_files <[filepath := []]> st1 in
          match io, utf8_encode text with
          | IoOk, Some bytes =>
              Returned (log (EvFetch url (Some filepath))
                          (set_files <[filepath := bytes]> st2),
                        Some filepath)
          | _, _ => failed st2
          end
      end
  end.

(** The pause chosen from the result of [fetch_and_save]. *)
Definition pacing_delay (result : option pystr) : Q :=
  match result with
  | None => 2
  | Some _ => 1
  end.

(** The inner loop over one query's URLs. *)
Fixpoint fetch_batch (w : world) (st : state) (urls : list pystr)
    (download_dir : pystr) : outcome state :=
  match urls with
  | [] => Returned st
  | url :: rest =>
      if negb (is_http url) then fetch_batch w st rest download_dir
      else
        '(st', result) ← fetch_and_save w st url download_dir;
        fetch_batch w (sleep (pacing_delay result) st') rest download_dir
  end.

(** The outer loop over the queries. *)
Fixpoint fetch_queries (w : world) (st : state) (queries : list pystr)
    (num_results : Z) (provider : option pystr) (download_dir : pystr)
  : outcome state :=
  match queries with
  | [] => Returned st
  | query :: rest =>
      let urls := get_urls w (searches st) query num_results provider in
      let st := count_search st in
      match urls with
      | [] => fetch_queries w st rest num_results provider download_dir
      | _ =>
          st' ← fetch_batch w st urls download_dir;
          fetch_queries w (sleep 1 st') rest num_results provider download_dir
      end
  end.

(** [os.makedirs] and the opening of the client session come first and
    do not depend on the URLs; they are taken to succeed. *)
Definition fetch_web_pages (w : world) (st : state) (queries : list pystr)
    (num_results : Z) (provider : option pystr) (download_dir : pystr)
  : outcome (state * bool) :=
  st' ← fetch_queries w st queries num_results provider download_dir;
  Returned (st', true).

(** The URLs on which a fetch was attempted, in order. *)
Definition attempted (tr : list event) : list pystr :=
  omap (fun e => match e with EvFetch u _ => Some u | _ => None end) tr.

(** The results of the attempts, in order. *)
Definition fetch_results (tr : list event) : list (pystr * option pystr) :=
  omap (fun e => match e with EvFetch u r => Some (u, r) | _ => None end) tr.

(** The URL lists the searches of a run return, query by query; [k] is
    the number of searches made before. *)
Fixpoint schedule (w : world) (k : nat) (queries : list pystr)
    (num_results : Z) (provider : option pystr) : list (list pystr) :=
  match queries with
  | [] => []
  | query :: rest =>
      get_urls w k query num_results provider
        :: schedule w (S k) rest num_results provider
  end.

(** What one batch leaves in the trace: each attempt, then its pause. *)
Definition batch_events (results : list (pystr * option pystr)) : list event :=
  flat_map (fun r => [EvFetch (fst r) (snd r); EvSleep (pacing_delay (snd r))])
    results.

(** What a run leaves in the trace: the batches, each closed by the pause
    between queries. *)
Definition run_events (batches : list (list (pystr * option pystr)))
  : list event :=
  flat_map (fun b => batch_events b ++ [EvSleep 1]) batches.

Definition encodable (url : pystr) : Prop :=
  is_Some (encode_url_to_filename url).

(** ** Sample worlds *)

Definition DOWNLOAD_DIR : pystr := lit "./downloaded".

(** Google answers one URL; DuckDuckGo is down; no page can be fetched. *)
Definition world_google : world :=
  World (fun _ _ _ => None)
        (fun _ _ _ => Some [Some (lit "http://a.example/")])
        (fun _ _ => RequestRaises).

(** Two queries, three results each, [http://c.example/] in both; every
    page is fetched and saved. *)
Definition world_two_queries : world :=
  World (fun _ q _ =>
           if bool_decide (q = lit "first")
           then Some [Some (lit "http://a.example/");
                      Some (lit "http://b.example/");
                      Some (lit "http://c.example/")]
           else Some [Some (lit "http://c.example/");
                      Some (lit "http://d.example/");
                      Some (lit "http://e.example/")])
        (fun _ _ _ => None)
        (fun _ _ => PageText (lit "text") IoOk).

(** One result; the page is fetched and saved. *)
Definition world_page_ok : world :=
  World (fun _ _ _ => Some [Some (lit "http://a.example/")])
        (fun _ _ _ => None)
        (fun _ _ => PageText (lit "text") IoOk).

(** One result; the request fails. *)
Definition world_page_down : world :=
  World (fun _ _ _ => Some [Some (lit "http://a.example/")])
        (fun _ _ _ => None)
        (fun _ _ => RequestRaises).

(** One result; the page text holds a lone surrogate (as the character
    reference [&#xD800;] gives), which the UTF-8 writer refuses. *)
Definition world_surrogate_page : world :=
  World (fun _ _ _ => Some [Some (lit "http://a.example/")])
        (fun _ _ _ => None)
        (fun _ _ => PageText [55296] IoOk).


(** Worlds in which every opened file is written in full: no I/O error
    at [write], and page texts that UTF-8 can encode. *)
Definition writes_complete (w : world) : Prop :=
  forall k url text io,
    http_get w k url = PageText text io ->
    io <> WriteRaises /\ is_Some (utf8_encode text).

(** [st'] is reached from [st] with every file that appeared on the way
    saved by a successful fetch of the trace in between. *)
Definition saved_by_success (st st' : state) : Prop :=
  exists tr,
    trace st' = trace st ++ tr
    /\ forall p, is_Some (files st' !! p) ->
         is_Some (files st !! p)
         \/ exists url, (url, Some p) ∈ fetch_results tr.

(** ** [json.loads] *)

(** A decoded JSON value.  A float is kept as its literal (also [NaN],
    [Infinity], [-Infinity]); an object keeps its pairs in source order. *)
#[warnings="-register-all"] Inductive json :=
  | JNull
  | JBool (b : bool)
  | JInt (z : Z)
  | JFloat (literal : pystr)
  | JString (s : pystr)
  | JArray (items : list json)
  | JObject (members : list (pystr * json)).

(** The answer of a scanner: a value and the rest of the input, a
    [JSONDecodeError], or an exhausted step budget. *)
Inductive parsed (A : Type) :=
  | Parsed (a : A) (rest : pystr)
  | Malformed
  | OutOfFuel.
Arguments Parsed {A} a rest.
Arguments Malformed {A}.
Arguments OutOfFuel {A}.

Definition parsed_map {A B} (f : A -> B) (p : parsed A) : parsed B :=
  match p with
  | Parsed a rest => Parsed (f a) rest
  | Malformed => Malformed
  | OutOfFuel => OutOfFuel
  end.

(** [WHITESPACE]: space, tab, line feed, carriage return. *)
Definition is_json_ws (c : Z) : bool :=
  (c =? 32) || (c =? 9) || (c =? 10) || (c =? 13).

Fixpoint skip_ws (s : pystr) : pystr :=
  match s with
  | c :: r => if is_json_ws c then skip_ws r else s
  | [] => []
  end.

Definition is_digit (c : Z) : bool := (48 <=? c) && (c <=? 57).

Fixpoint span_digits (s : pystr) : pystr * pystr :=
  match s with
  | c :: r =>
      if is_digit c then let '(d, rest) := span_digits r in (c :: d, rest)
      else ([], s)
  | [] => ([], [])
  end.

(** The value of a run of decimal digits. *)
Definition digits_value (d : pystr) : Z :=
  fold_left (fun acc c => 10 * acc + (c - 48)) d 0.

(** [NUMBER_RE]: an integer part (an optional minus sign, then either a
    single zero or a non-zero digit and more digits), an optional
    fraction (a dot and at least one digit) and an optional exponent
    ([e] or [E], an optional sign, at least one digit).  A fraction or
    exponent that does not match in full is left in the rest. *)
Definition match_integer (s : pystr) : option (pystr * pystr) :=
  let '(sign, s1) :=
    match s with
    | c :: r => if c =? 45 then ([c], r) else ([], s)
    | [] => ([], s)
    end in
  match s1 with
  | c :: r =>
      if c =? 48 then Some (sign ++ [c], r)
      else if is_digit c then
        let '(d, rest) := span_digits r in Some (sign ++ c :: d, rest)
      else None
  | [] => None
  end.

Definition match_frac (s : pystr) : pystr * pystr :=
  match s with
  | c :: r =>
      if c =? 46 then
        match span_digits r with
        | ([], _) => ([], s)
        | (d, rest) => (c :: d, rest)
        end
      else ([], s)
  | [] => ([], s)
  end.

Definition match_exp (s : pystr) : pystr * pystr :=
  match s with
  | e :: r =>
      if (e =? 101) || (e =? 69) then
        let '(sign, r1) :=
          match r with
          | c :: r' => if (c =? 45) || (c =? 43) then ([c], r') else ([], r)
          | [] => ([], r)
          end in
        match span_digits r1 with
        | ([], _) => ([], s)
        | (d, rest) => (e :: sign ++ d, rest)
        end
      else ([], s)
  | [] => ([], s)
  end.

(** [int(integer)] for a matched integer part. *)
Definition int_of_literal (l : pystr) : Z :=
  match l with
  | c :: d => if c =? 45 then - digits_value d else digits_value l
  | [] => 0
  end.

Definition match_number (s : pystr) : option (json * pystr) :=
  match match_integer s with
  | None => None
  | Some (integer, s1) =>
      let '(frac, s2) := match_frac s1 in
      let '(exp, s3) := match_exp s2 in
      match frac, exp with
      | [], [] => Some (JInt (int_of_literal integer), s3)
      | _, _ => Some (JFloat (integer ++ frac ++ exp), s3)
      end
  end.

(** Four hexadecimal digits of a [\uXXXX] escape. *)
Definition hex4 (s : pystr) : option (Z * pystr) :=
  match s with
  | a :: b :: c :: d :: rest =>
      match hexval a, hexval b, hexval c, hexval d with
      | Some x, Some y, Some z, Some t =>
          Some (((x * 16 + y) * 16 + z) * 16 + t, rest)
      | _, _, _, _ => None
      end
  | _ => None
  end.

(** [BACKSLASH]: the one-character escapes. *)
Definition unescape (e : Z) : option Z :=
  if e =? 34 then Some 34 else if e =? 92 then Some 92
  else if e =? 47 then Some 47 else if e =? 98 then Some 8
  else if e =? 102 then Some 12 else if e =? 110 then Some 10
  else if e =? 114 then Some 13 else if e =? 116 then Some 9
  else None.

(** [scanstring] in strict mode, from just after the opening quote. *)
Fixpoint scan_string (fuel : nat) (acc s : pystr) : parsed pystr :=
  match fuel with
  | O => OutOfFuel
  | S fuel =>
      match s with
      | [] => Malformed
      | c :: r =>
          if c =? 34 then Parsed acc r
          else if c =? 92 then
            match r with
            | [] => Malformed
            | e :: r1 =>
                if e =? 117 then
                  match hex4 r1 with
                  | None => Malformed
                  | Some (uni, r2) =>
                      if (55296 <=? uni) && (uni <=? 56319)
                         && startswith [92; 117] r2
                      then
                        match hex4 (drop 2 r2) with
                        | None => Malformed
                        | Some (uni2, r3) =>
                            if (56320 <=? uni2) && (uni2 <=? 57343)
                            then scan_string fuel
                                   (acc ++ [65536 + (uni - 55296) * 1024
                                            + (uni2 - 56320)]) r3
                            else scan_string fuel (acc ++ [uni]) r2
                        end
                      else scan_string fuel (acc ++ [uni]) r2
                  end
                else
                  match unescape e with
                  | Some ch => scan_string fuel (acc ++ [ch]) r1
                  | None => Malformed
                  end
            end
          else if c <? 32 then Malformed
          else scan_string fuel (acc ++ [c]) r
      end
  end.

Definition parse_string (s : pystr) : parsed pystr :=
  scan_string (S (length s)) [] s.

(** [scan_once], [JSONArray] and [JSONObject].  [parse_elements] starts
    at a value of an array, [parse_members] just after the opening quote
    of a key. *)
Fixpoint parse_value (fuel : nat) (s : pystr) : parsed json :=
  match fuel with
  | O => OutOfFuel
  | S fuel =>
      match s with
      | [] => Malformed
      | c :: r =>
          if c =? 34 then parsed_map JString (parse_string r)
          else if c =? 123 then
            match skip_ws r with
            | c1 :: r1 =>
                if c1 =? 125 then Parsed (JObject []) r1
                else if c1 =? 34 then parse_members fuel [] r1
                else Malformed
            | [] => Malformed
            end
          else if c =? 91 then
            match skip_ws r with
            | c1 :: r1 =>
                if c1 =? 93 then Parsed (JArray []) r1
                else parse_elements fuel [] (c1 :: r1)
            | [] => Malformed
            end
          else if startswith (lit "null") s then Parsed JNull (drop 4 s)
          else if startswith (lit "true") s then Parsed (JBool true) (drop 4 s)
          else if startswith (lit "false") s then Parsed (JBool false) (drop 5 s)
          else
            match match_number s with
            | Some (v, rest) => Parsed v rest
            | None =>
                if startswith (lit "NaN") s
                then Parsed (JFloat (lit "NaN")) (drop 3 s)
                else if startswith (lit "Infinity") s
                then Parsed (JFloat (lit "Infinity")) (drop 8 s)
                else if startswith (lit "-Infinity") s
                then Parsed (JFloat (lit "-Infinity")) (drop 9 s)
                else Malformed
            end
      end
  end
with parse_elements (fuel : nat) (acc : list json) (s : pystr) : parsed json :=
  match fuel with
  | O => OutOfFuel
  | S fuel =>
      match parse_value fuel s with
      | Parsed v rest =>
          match skip_ws rest with
          | c :: r =>
              if c =? 93 then Parsed (JArray (acc ++ [v])) r
              else if c =? 44 then parse_elements fuel (acc ++ [v]) (skip_ws r)
              else Malformed
          | [] => Malformed
          end
      | Malformed => Malformed
      | OutOfFuel => OutOfFuel
      end
  end
with parse_members (fuel : nat) (acc : list (pystr * json)) (s : pystr)
  : parsed json :=
  match fuel with
  | O => OutOfFuel
  | S fuel =>
      match parse_string s with
      | Parsed key rest =>
          match skip_ws rest with
          | c :: r =>
              if c =? 58 then
                match parse_value fuel (skip_ws r) with
                | Parsed v rest1 =>
                    match skip_ws rest1 with
                    | c1 :: r1 =>
                        if c1 =? 125 then Parsed (JObject (acc ++ [(key, v)])) r1
                        else if c1 =? 44 then
                          match skip_ws r1 with
                          | c2 :: r2 =>
                              if c2 =? 34
                              then parse_members fuel (acc ++ [(key, v)]) r2
                              else Malformed
                          | [] => Malformed
                          end
                        else Malformed
                    | [] => Malformed
                    end
                | Malformed => Malformed
                | OutOfFuel => OutOfFuel
                end
              else Malformed
          | [] => Malformed
          end
      | Malformed => Malformed
      | OutOfFuel => OutOfFuel
      end
  end.

(** Two steps for each character are enough (see [parse_value_fuel]). *)
Definition json_fuel (s : pystr) : nat := S (2 * length s).

(** [json.loads(s)] for a [str]; [None] is [JSONDecodeError].  The
    interpreter's recursion limit is not part of the model. *)
Definition json_loads (s : pystr) : option json :=
  if startswith [65279] s then None
  else
    let s := skip_ws s in
    match parse_value (json_fuel s) s with
    | Parsed v rest => match skip_ws rest with [] => Some v | _ => None end
    | _ => None
    end.

(** [d[key]] for the pairs of an object: the last pair with that key. *)
Definition dict_get (key : pystr) (members : list (pystr * json)) : option json :=
  fold_left (fun found m => if bool_decide (m.1 = key) then Some m.2 else found)
    members None.

(** ** extract_queries.py *)

(** Line boundaries of [str.splitlines]. *)
Definition is_linebreak (c : Z) : bool :=
  ((10 <=? c) && (c <=? 13)) || ((28 <=? c) && (c <=? 30))
  || (c =? 133) || (c =? 8232) || (c =? 8233).

(** [s.splitlines()], [cur] being the line under way. *)
Fixpoint splitlines_from (cur s : pystr) : list pystr :=
  match s with
  | [] => match cur with [] => [] | _ => [cur] end
  | c :: r =>
      if c =? 13 then
        match r with
        | c' :: r' =>
            if c' =? 10 then cur :: splitlines_from [] r'
            else cur :: splitlines_from [] r
        | [] => [cur]
        end
      else if is_linebreak c then cur :: splitlines_from [] r
      else splitlines_from (cur ++ [c]) r
  end.

Definition splitlines (s : pystr) : list pystr := splitlines_from [] s.

(** [str.isspace] on one character. *)
Definition is_space (c : Z) : bool :=
  ((9 <=? c) && (c <=? 13)) || ((28 <=? c) && (c <=? 32))
  || (c =? 133) || (c =? 160) || (c =? 5760)
  || ((8192 <=? c) && (c <=? 8202))
  || (c =? 8232) || (c =? 8233) || (c =? 8239) || (c =? 8287) || (c =? 12288).

Fixpoint lstrip (s : pystr) : pystr :=
  match s with
  | c :: r => if is_space c then lstrip r else s
  | [] => []
  end.

(** [s.strip()] *)
Definition strip (s : pystr) : pystr := rev (lstrip (rev (lstrip s))).

(** [[line.strip() for line in content.splitlines() if line.strip()]] *)
Definition content_lines (content : pystr) : list pystr :=
  List.filter (fun l => match l with [] => false | _ => true end)
    (List.map strip (splitlines content)).

(** What [extract_queries] takes from its surroundings: the two constants
    of [config], the date, the chat capability, and the builtin [str] on
    decoded values that are not strings.  [chat rt true] is the call with
    the [format] schema, [chat rt false] the one without; each answers
    the [content] of the reply ([""] when it is missing or [None]), or
    [None] when the call or the access to the reply raises. *)
Record runtime := Runtime {
  MODEL_NAME : pystr;
  PROMPT_format : pystr -> pystr -> pystr;
  today : pystr;
  chat : bool -> pystr -> pystr -> option pystr;
  str_of_value : json -> pystr
}.

(** [str(q)] *)
Definition py_str (rt : runtime) (q : json) : pystr :=
  match q with
  | JString s => s
  | _ => str_of_value rt q
  end.

(** [if not model: model = MODEL_NAME] *)
Definition model_or_default (rt : runtime) (model : option pystr) : pystr :=
  match model with
  | Some (c :: m) => c :: m
  | _ => MODEL_NAME rt
  end.

(** The nested [try] blocks: the schema call, else the plain call. *)
Definition chat_content (rt : runtime) (model prompt_text : pystr)
  : option pystr :=
  match chat rt true model prompt_text with
  | Some content => Some content
  | None => chat rt false model prompt_text
  end.

(** The two [return] statements under [json.loads]; [None] when neither
    is taken. *)
Definition queries_of_json (rt : runtime) (parsed : json) : option (list pystr) :=
  match parsed with
  | JObject members =>
      match dict_get (lit "queries") members with
      | Some (JArray items) => Some (List.map (py_str rt) items)
      | _ => None
      end
  | JArray items => Some (List.map (py_str rt) items)
  | _ => None
  end.

Definition extract_queries (rt : runtime) (query : pystr)
    (model : option pystr) : list pystr :=
  let model := model_or_default rt model in
  let prompt_text := PROMPT_format rt (today rt) query in
  match chat_content rt model prompt_text with
  | None => [query]
  | Some [] => [query]
  | Some content =>
      match json_loads content ≫= queries_of_json rt with
      | Some queries => queries
      | None =>
          match content_lines content with
          | [] => [query]
          | lines => lines
          end
      end
  end.





(** A chat model that cannot be reached. *)
Definition runtime_unreachable : runtime :=
  Runtime (lit "llama3") (fun date query => date ++ lit " " ++ query)
    (lit "2025-01-01")
    (fun _ _ _ => None)
    (fun _ => []).

(** ** app.py: prompt assembly *)





(** ** Further notions for the runs *)

(** The seconds slept along a trace. *)
Definition total_sleep (tr : list event) : Q :=
  fold_right (fun e acc => match e with
                           | EvSleep d => (d + acc)%Q
                           | EvFetch _ _ => acc
                           end) 0%Q tr.

Definition is_failure (r : pystr * option pystr) : bool :=
  match r.2 with None => true | Some _ => false end.

(** [st'] is reached from [st] without losing a file and with every
    changed file lying in [folder] under the name of a URL attempted in
    between. *)
Definition writes_inside (folder : pystr) (st st' : state) : Prop :=
  (forall p, is_Some (files st !! p) -> is_Some (files st' !! p))
  /\ exists tr,
       trace st' = trace st ++ tr
       /\ forall p, files st' !! p <> files st !! p ->
            exists url name,
              url ∈ attempted tr
              /\ is_http url = true
              /\ encode_url_to_filename url = Some name
              /\ p = os_path_join folder name.

(** [st'] has the files of [st]. *)
Definition same_files (st st' : state) : Prop := files st' = files st.

(** One result, a URL that ends in a lone surrogate. *)
Definition world_surrogate_url : world :=
  World (fun _ _ _ => Some [Some (lit "http://a.example/" ++ [55296])])
        (fun _ _ _ => None)
        (fun _ _ => PageText (lit "text") IoOk).

(** ** [remove_temp_files] *)







(** ** app.py: the list of models *)

(** [needle in hay] *)
Fixpoint is_substring (needle hay : pystr) : bool :=
  startswith needle hay
  || match hay with
     | [] => false
     | _ :: r => is_substring needle r
     end.

(** The [ollama] module as app.py finds it: not importable, listing
    fails, or a list of entries, each with its [model] attribute ([None]
    when the attribute is missing or [None]). *)
Inductive ollama_client :=
  | OllamaMissing
  | OllamaListRaises
  | OllamaModels (models : list (option pystr)).

Definition EMBEDDING_MODEL : pystr := lit "nomic-embed-text".

(** [safe_ollama_models()]; [model_name] is [config.MODEL_NAME]. *)
Definition safe_ollama_models (model_name : pystr) (ollama : ollama_client)
  : list pystr :=
  match ollama with
  | OllamaMissing => [model_name]
  | OllamaListRaises => [model_name]
  | OllamaModels entries =>
      let models := omap (fun m => if truthy m then m else None) entries in
      let models :=
        List.filter (fun m => negb (is_substring EMBEDDING_MODEL m)) models in
      match models with
      | [] => [model_name]
      | _ => models
      end
  end.


(** A character that a JSON string holds as it is: no control character,
    no quote, no backslash. *)
Definition plain_char (c : Z) : bool :=
  (32 <=? c) && negb (c =? 34) && negb (c =? 92).

(** A string of plain characters as JSON text. *)
Definition json_string (q : pystr) : pystr := 34 :: q ++ [34].

(** The items of an array of such strings, separated by a comma and a
    space. *)
Fixpoint json_items (qs : list pystr) : pystr :=
  match qs with
  | [] => []
  | [q] => json_string q
  | q :: rest => json_string q ++ [44; 32] ++ json_items rest
  end.

(** The reply that conforms to the schema: an object whose [queries]
    member is the array of the queries. *)
Definition queries_reply (qs : list pystr) : pystr :=
  [123] ++ json_string (lit "queries") ++ [58; 32; 91] ++ json_items qs
  ++ [93; 125].

(* ================================================================== *)
(** * Properties *)

Example encode_example :
  encode_url_to_filename (lit "http://a.b/c?d=1")
  = Some (lit "http%3A%2F%2Fa.b%2Fc%3Fd%3D1").
Proof. reflexivity. Qed.

Example decode_example :
  decode_filename_to_url (lit "http%3A%2F%2Fa.b%2Fc%3Fd%3D1")
  = lit "http://a.b/c?d=1".
Proof. reflexivity. Qed.

(** ** UTF-8 *)

Ltac divlia := Z.to_euclidean_division_equations; lia.

(** Decides the integer comparisons of the goal from the context. *)
Ltac ztests :=
  repeat match goal with
    | |- context [?a <? ?b] =>
        (rewrite (proj2 (Z.ltb_lt a b)) by divlia)
        || (rewrite (proj2 (Z.ltb_ge a b)) by divlia)
    | |- context [?a <=? ?b] =>
        (rewrite (proj2 (Z.leb_le a b)) by divlia)
        || (rewrite (proj2 (Z.leb_gt a b)) by divlia)
    | |- context [?a =? ?b] =>
        (rewrite (proj2 (Z.eqb_eq a b)) by divlia)
        || (rewrite (proj2 (Z.eqb_neq a b)) by divlia)
    end.

Lemma utf8_encode_char_scalar c :
  is_scalar c -> is_Some (utf8_encode_char c).
Proof.
  intros [[H0 H1] Hs]. unfold utf8_encode_char.
  repeat case_match; try done; lia.
Qed.

Lemma utf8_encode_char_Some c bs :
  utf8_encode_char c = Some bs -> is_scalar c.
Proof.
  unfold utf8_encode_char, is_scalar, is_code_point, is_surrogate.
  repeat case_match; intros; simplify_eq; split; try lia;
    apply andb_false_iff; lia.
Qed.

Lemma utf8_decode_encode_char c bs rest :
  utf8_encode_char c = Some bs ->
  utf8_decode (bs ++ rest) = c :: utf8_decode rest.
Proof.
  unfold utf8_encode_char.
  destruct (Z.ltb_spec c 0); [done|].
  destruct (Z.ltb_spec c 128).
  { intros [= <-]. cbn [app utf8_decode]. by ztests. }
  destruct (Z.ltb_spec c 2048).
  { intros [= <-]. cbn [app utf8_decode]. unfold is_cont. ztests.
    cbn [orb andb]. ztests. cbn [andb]. f_equal. divlia. }
  destruct (Z.ltb_spec c 65536).
  { destruct (is_surrogate c) eqn:Hs; [done|].
    intros [= <-]. cbn [app utf8_decode]. unfold is_surrogate in Hs.
    assert (c < 55296 \/ 57343 < c) as Hs'.
    { apply andb_false_iff in Hs. destruct Hs as [Hs|Hs];
        apply Z.leb_gt in Hs; lia. }
    clear Hs.
    ztests. cbn [orb]. ztests.
    assert (second_ok (224 + c / 4096) (128 + c / 64 mod 64) = true) as ->.
    { unfold second_ok, is_cont.
      destruct (Z.eqb_spec (224 + c / 4096) 224); [by ztests|].
      destruct (Z.eqb_spec (224 + c / 4096) 237); by ztests. }
    unfold is_cont. ztests. cbn [andb]. f_equal. divlia. }
  destruct (Z.leb_spec c 1114111); [|done].
  intros [= <-]. cbn [app utf8_decode]. ztests. cbn [orb]. ztests.
  assert (second_ok (240 + c / 262144) (128 + c / 4096 mod 64) = true) as ->.
  { unfold second_ok, is_cont.
    destruct (Z.eqb_spec (240 + c / 262144) 240); [by ztests|].
    destruct (Z.eqb_spec (240 + c / 262144) 244); by ztests. }
  unfold is_cont. ztests. cbn [andb]. f_equal. divlia.
Qed.

Lemma utf8_decode_encode s bs :
  utf8_encode s = Some bs -> utf8_decode bs = s.
Proof.
  revert bs. induction s as [|c s IH]; intros bs; cbn [utf8_encode].
  { by intros [= <-]. }
  destruct (utf8_encode_char c) as [b|] eqn:Hc; [|done].
  destruct (utf8_encode s) as [bs'|]; [|done].
  intros [= <-]. rewrite (utf8_decode_encode_char _ _ _ Hc).
  f_equal. by apply IH.
Qed.

Lemma utf8_encode_scalar s :
  Forall is_scalar s -> is_Some (utf8_encode s).
Proof.
  induction 1 as [|c s Hc _ IH]; cbn [utf8_encode]; [by eexists|].
  destruct (utf8_encode_char_scalar c Hc) as [b ->].
  destruct IH as [bs ->]. by eexists.
Qed.

(** Every encoded byte is a byte. *)
Lemma utf8_encode_char_bytes c bs :
  utf8_encode_char c = Some bs -> Forall (fun b => 0 <= b < 256) bs.
Proof.
  unfold utf8_encode_char.
  repeat case_match; try done; intros [= <-];
    repeat constructor; try divlia.
Qed.

Lemma utf8_encode_bytes s bs :
  utf8_encode s = Some bs -> Forall (fun b => 0 <= b < 256) bs.
Proof.
  revert bs. induction s as [|c s IH]; intros bs; cbn [utf8_encode].
  { intros [= <-]. constructor. }
  destruct (utf8_encode_char c) as [b|] eqn:Hc; [|done].
  destruct (utf8_encode s) as [bs'|]; [|done].
  intros [= <-]. apply Forall_app. split; [by eapply utf8_encode_char_bytes|].
  by apply IH.
Qed.

(** ** Percent-encoding *)

Lemma quote_from_bytes_flat_map bs :
  quote_from_bytes bs = flat_map quoter bs.
Proof.
  unfold quote_from_bytes. destruct bs as [|b bs]; [done|].
  destruct (forallb always_safe (b :: bs)) eqn:Hsafe; [|done].
  revert Hsafe. generalize (b :: bs). clear. intros l.
  induction l as [|a l IH]; [done|]. cbn [forallb flat_map].
  intros [Ha Hl]%andb_true_iff. unfold quoter at 1. rewrite Ha.
  cbn [app]. f_equal. by apply IH.
Qed.

Lemma hexval_hexdigit n : 0 <= n < 16 -> hexval (hexdigit n) = Some n.
Proof.
  intros Hn. unfold hexdigit, hexval.
  destruct (Z.ltb_spec n 10); ztests; cbn [andb]; f_equal; lia.
Qed.

Lemma hexdigit_range n :
  0 <= n < 16 -> 48 <= hexdigit n <= 57 \/ 65 <= hexdigit n <= 70.
Proof. intros Hn. unfold hexdigit. destruct (Z.ltb_spec n 10); lia. Qed.

Lemma always_safe_range b :
  always_safe b = true ->
  (65 <= b <= 90) \/ (97 <= b <= 122) \/ (48 <= b <= 57)
  \/ b = 95 \/ b = 46 \/ b = 45 \/ b = 126.
Proof.
  unfold always_safe. rewrite !orb_true_iff, !andb_true_iff, !Z.leb_le, !Z.eqb_eq.
  tauto.
Qed.

Lemma split_on_cons sep s : exists h t, split_on sep s = h :: t.
Proof.
  induction s as [|c r (h & t & IH)]; cbn [split_on]; [by eauto|].
  destruct (c =? sep); [by eauto|]. rewrite IH. eauto.
Qed.

Lemma split_on_single sep s h : split_on sep s = [h] -> h = s.
Proof.
  revert h. induction s as [|c r IH]; intros h; cbn [split_on].
  { by intros [= <-]. }
  destruct (c =? sep).
  { destruct (split_on_cons sep r) as (h' & t' & ->). done. }
  destruct (split_on_cons sep r) as (h' & t' & Hr). rewrite Hr in *.
  intros [= <- ->]. f_equal. by apply IH.
Qed.

(** The three exits of [unquote_to_bytes] agree with one formula. *)
Lemma unquote_to_bytes_split s :
  unquote_to_bytes s
  = match split_on PERCENT s with
    | h :: t => h ++ flat_map unquote_item t
    | [] => []
    end.
Proof.
  unfold unquote_to_bytes. destruct s as [|c r]; [done|].
  destruct (split_on PERCENT (c :: r)) as [|h [|i t]] eqn:Hs.
  - destruct (split_on_cons PERCENT (c :: r)) as (? & ? & ?). congruence.
  - cbn [flat_map]. rewrite app_nil_r. symmetry. by eapply split_on_single.
  - done.
Qed.

Lemma unquote_to_bytes_plain c s :
  c <> PERCENT -> unquote_to_bytes (c :: s) = c :: unquote_to_bytes s.
Proof.
  intros Hc. rewrite !unquote_to_bytes_split. cbn [split_on].
  rewrite (proj2 (Z.eqb_neq c PERCENT)) by done.
  by destruct (split_on_cons PERCENT s) as (h & t & ->).
Qed.

Lemma hexval_not_percent h a : hexval h = Some a -> h <> PERCENT.
Proof. intros H ->. done. Qed.

Lemma unquote_to_bytes_escape h1 h2 a b s :
  hexval h1 = Some a -> hexval h2 = Some b ->
  unquote_to_bytes (PERCENT :: h1 :: h2 :: s)
  = (16 * a + b) :: unquote_to_bytes s.
Proof.
  intros H1 H2. rewrite !unquote_to_bytes_split. cbn [split_on].
  rewrite Z.eqb_refl.
  rewrite (proj2 (Z.eqb_neq h1 PERCENT)) by by eapply hexval_not_percent.
  rewrite (proj2 (Z.eqb_neq h2 PERCENT)) by by eapply hexval_not_percent.
  destruct (split_on_cons PERCENT s) as (h & t & ->).
  cbn [app flat_map unquote_item]. by rewrite H1, H2.
Qed.

Lemma unquote_to_bytes_quoter b s :
  is_byte b -> unquote_to_bytes (quoter b ++ s) = b :: unquote_to_bytes s.
Proof.
  intros Hb. unfold quoter. destruct (always_safe b) eqn:Hsafe; cbn [app].
  - apply unquote_to_bytes_plain. apply always_safe_range in Hsafe.
    unfold PERCENT. lia.
  - unfold is_byte in Hb.
    rewrite (unquote_to_bytes_escape _ _ (b / 16) (b mod 16));
      [f_equal; divlia|apply hexval_hexdigit; divlia..].
Qed.

Lemma unquote_to_bytes_quote bs :
  Forall is_byte bs -> unquote_to_bytes (flat_map quoter bs) = bs.
Proof.
  induction 1 as [|b bs Hb _ IH]; [done|]. cbn [flat_map].
  rewrite unquote_to_bytes_quoter by done. by f_equal.
Qed.

Lemma quoter_chars b : is_byte b -> Forall quoted_char (quoter b).
Proof.
  intros Hb. unfold quoter, quoted_char, is_byte in *.
  destruct (always_safe b) eqn:Hsafe.
  { constructor; [by left|constructor]. }
  constructor; [by right; left|].
  constructor; [|constructor; [|constructor]]; right; right.
  - apply (hexdigit_range (b / 16)). divlia.
  - apply (hexdigit_range (b mod 16)). divlia.
Qed.

Lemma flat_map_quoter_chars bs :
  Forall is_byte bs -> Forall quoted_char (flat_map quoter bs).
Proof.
  induction 1; cbn [flat_map]; [constructor|].
  apply Forall_app. split; [by apply quoter_chars|done].
Qed.

Lemma quoted_char_ascii c : quoted_char c -> is_ascii c.
Proof.
  unfold quoted_char, is_ascii, PERCENT.
  intros [H%always_safe_range|H]; lia.
Qed.

Lemma quoted_char_not_slash c : quoted_char c -> c <> SLASH.
Proof.
  unfold quoted_char, PERCENT, SLASH.
  intros [H%always_safe_range|H]; lia.
Qed.

Lemma quote_chars s f : quote s = Some f -> Forall quoted_char f.
Proof.
  unfold quote. destruct s as [|c s]; [intros [= <-]; constructor|].
  destruct (utf8_encode (c :: s)) as [bs|] eqn:He; [|done].
  intros [= <-]. rewrite quote_from_bytes_flat_map.
  apply flat_map_quoter_chars.
  eapply Forall_impl; [by eapply utf8_encode_bytes|]. done.
Qed.

(** ** Unquoting an ASCII string *)

Lemma utf8_decode_ascii s : Forall is_ascii s -> utf8_decode s = s.
Proof.
  induction 1 as [|c s Hc _ IH]; [done|]. cbn [utf8_decode].
  unfold is_ascii in Hc. ztests. by f_equal.
Qed.

Lemma unquote_parts_ascii run s :
  Forall is_ascii s -> unquote_parts run s = flush_run (run ++ s).
Proof.
  intros Hs. revert run. induction Hs as [|c s Hc _ IH]; intros run.
  { by rewrite app_nil_r. }
  cbn [unquote_parts]. unfold is_ascii in Hc. ztests. cbn [andb].
  by rewrite IH, <- app_assoc.
Qed.

Lemma contains_false_split c s : contains c s = false -> split_on c s = [s].
Proof.
  induction s as [|a s IH]; [done|]. unfold contains. cbn [existsb split_on].
  intros [Ha Hs]%orb_false_iff. rewrite Z.eqb_sym, Ha.
  unfold contains in IH. by rewrite IH.
Qed.

Lemma unquote_ascii s :
  Forall is_ascii s -> unquote s = utf8_decode (unquote_to_bytes s).
Proof.
  intros Hs. unfold unquote.
  destruct (contains PERCENT s) eqn:Hp.
  - rewrite unquote_parts_ascii by done. cbn [app].
    unfold flush_run. by destruct s.
  - rewrite unquote_to_bytes_split, contains_false_split by done.
    cbn [flat_map]. rewrite app_nil_r. symmetry. by apply utf8_decode_ascii.
Qed.

Lemma unquote_quote s f : quote s = Some f -> unquote f = s.
Proof.
  intros Hq. rewrite unquote_ascii
    by (eapply Forall_impl; [by eapply quote_chars|apply quoted_char_ascii]).
  revert Hq. unfold quote. destruct s as [|c s]; [by intros [= <-]|].
  destruct (utf8_encode (c :: s)) as [bs|] eqn:He; [|done].
  intros [= <-]. rewrite quote_from_bytes_flat_map.
  rewrite unquote_to_bytes_quote.
  - by apply utf8_decode_encode.
  - eapply Forall_impl; [by eapply utf8_encode_bytes|]. done.
Qed.

Lemma quote_scalar s : Forall is_scalar s -> is_Some (quote s).
Proof.
  intros Hs. unfold quote. destruct s as [|c s]; [by eexists|].
  destruct (utf8_encode_scalar _ Hs) as [bs ->]. by eexists.
Qed.

(** C2.  For every URL made of Unicode scalar values (every printable
    character is one), [encode_url_to_filename] yields a filename and
    [decode_filename_to_url] maps that filename back to exactly the URL:
    percent-decoding undoes percent-encoding. *)
Theorem decode_encode_roundtrip (url : pystr) :
  Forall is_scalar url ->
  exists filename,
    encode_url_to_filename url = Some filename
    /\ decode_filename_to_url filename = url.
Proof.
  intros Hs. unfold encode_url_to_filename, decode_filename_to_url.
  destruct (quote_scalar url Hs) as [f Hf].
  exists f. split; [done|]. by apply unquote_quote.
Qed.

Lemma decode_encode_roundtrip_witness :
  exists filename,
    encode_url_to_filename (lit "https://example.org/a b?q=1") = Some filename
    /\ decode_filename_to_url filename = lit "https://example.org/a b?q=1".
Proof.
  apply (decode_encode_roundtrip (lit "https://example.org/a b?q=1")).
  repeat constructor; vm_compute; congruence.
Defined.

(** ** The filtering step of [get_urls] *)

Lemma is_http_nil : is_http [] = false.
Proof. reflexivity. Qed.

Lemma filter_first_occurrences (P : pystr -> Prop) `{!∀ x, Decision (P x)} l :
  filter P (first_occurrences l) = first_occurrences (filter P l).
Proof.
  induction l as [|x r IH]; [done|]. cbn [first_occurrences].
  destruct (decide (P x)) as [HP|HP].
  - rewrite !filter_cons_True by done. cbn [first_occurrences].
    rewrite <- IH. f_equal. rewrite !list_filter_filter.
    apply list_filter_iff. tauto.
  - rewrite !filter_cons_False by done. rewrite <- IH.
    rewrite list_filter_filter. apply list_filter_iff.
    intros y. split; [tauto|]. intros Hy. split; [done|]. by intros ->.
Qed.

Lemma elem_of_first_occurrences l x : x ∈ first_occurrences l ↔ x ∈ l.
Proof.
  induction l as [|y r IH]; [done|]. cbn [first_occurrences].
  rewrite !elem_of_cons, list_elem_of_filter, IH.
  destruct (decide (x = y)); tauto.
Qed.

Lemma NoDup_first_occurrences l : NoDup (first_occurrences l).
Proof.
  induction l as [|x r IH]; [constructor|]. cbn [first_occurrences].
  constructor; [|by apply NoDup_filter].
  rewrite list_elem_of_filter. tauto.
Qed.

Lemma sublist_first_occurrences l : first_occurrences l `sublist_of` l.
Proof.
  induction l as [|x r IH]; [done|]. cbn [first_occurrences].
  constructor. etrans; [apply sublist_filter|done].
Qed.

Lemma http_entries_cons u urls :
  http_entries (u :: urls)
  = match u with
    | Some s => if is_http s then s :: http_entries urls else http_entries urls
    | None => http_entries urls
    end.
Proof.
  unfold http_entries. cbn [omap list_omap].
  destruct u as [s|]; [|done]. by destruct (is_http s).
Qed.

Lemma elem_of_http_entries urls u :
  u ∈ http_entries urls ↔ Some u ∈ urls ∧ is_http u = true.
Proof.
  unfold http_entries. rewrite list_elem_of_omap. split.
  - intros ([s|] & Hin & Hs); [|done].
    destruct (is_http s) eqn:E; by simplify_eq.
  - intros [Hin Hu]. exists (Some u). by rewrite Hu.
Qed.

(** The loop, from any point reached with [seen] holding the members of
    [clean]. *)
Lemma clean_loop urls seen clean :
  (∀ u, u ∈ seen ↔ u ∈ clean) ->
  snd (fold_left clean_step urls (seen, clean))
  = clean ++ first_occurrences (filter (fun u => u ∉ clean) (http_entries urls)).
Proof.
  revert seen clean. induction urls as [|u urls IH]; intros seen clean Hseen.
  { cbn. by rewrite app_nil_r. }
  cbn [fold_left]. rewrite http_entries_cons.
  destruct u as [[|c s]|]; cbn [clean_step]; [by apply IH| |by apply IH].
  destruct (is_http (c :: s)) eqn:Hh; cbn [negb]; [|by apply IH].
  destruct (bool_decide_reflect (c :: s ∈ seen)) as [Hin|Hin].
  { rewrite filter_cons_False by (rewrite <- Hseen; tauto). by apply IH. }
  rewrite filter_cons_True by by rewrite <- Hseen.
  rewrite (IH ({[c :: s]} ∪ seen) (clean ++ [c :: s])).
  - rewrite <- app_assoc. cbn [app first_occurrences]. do 2 f_equal.
    rewrite filter_first_occurrences, list_filter_filter.
    f_equal. apply list_filter_iff. intros y.
    rewrite elem_of_app, list_elem_of_singleton. tauto.
  - intros y. rewrite elem_of_union, elem_of_singleton, elem_of_app,
      list_elem_of_singleton, Hseen. tauto.
Qed.

Lemma clean_urls_spec urls :
  clean_urls urls = first_occurrences (http_entries urls).
Proof.
  unfold clean_urls. rewrite clean_loop by set_solver. cbn [app].
  f_equal. induction (http_entries urls) as [|x l IH]; [done|].
  rewrite filter_cons_True by set_solver. by f_equal.
Qed.

Lemma sublist_fmap_Some (l1 l2 : list pystr) :
  l1 `sublist_of` l2 -> Some <$> l1 `sublist_of` Some <$> l2.
Proof. induction 1; cbn; by constructor. Qed.

Lemma sublist_http_entries urls : Some <$> http_entries urls `sublist_of` urls.
Proof.
  induction urls as [|u urls IH]; [done|].
  rewrite http_entries_cons. destruct u as [s|]; [|by constructor].
  destruct (is_http s); by constructor.
Qed.

Lemma elem_of_clean_urls urls u :
  u ∈ clean_urls urls <-> Some u ∈ urls /\ is_http u = true.
Proof.
  by rewrite clean_urls_spec, elem_of_first_occurrences, elem_of_http_entries.
Qed.

Lemma clean_urls_NoDup urls : NoDup (clean_urls urls).
Proof. rewrite clean_urls_spec. apply NoDup_first_occurrences. Qed.

Lemma clean_urls_is_http urls :
  Forall (fun u => is_http u = true) (clean_urls urls).
Proof.
  apply Forall_forall. intros u Hu. by apply elem_of_clean_urls in Hu as [_ Hu].
Qed.

(** The loop only ever appends. *)
Lemma clean_loop_prefix urls seen clean :
  clean `prefix_of` snd (fold_left clean_step urls (seen, clean)).
Proof.
  revert seen clean. induction urls as [|u urls IH]; intros seen clean; [done|].
  cbn [fold_left]. destruct u as [[|c s]|]; cbn [clean_step]; try apply IH.
  destruct (negb (is_http (c :: s))); [apply IH|].
  destruct (bool_decide (c :: s ∈ seen)); [apply IH|].
  etrans; [|apply IH]. by apply prefix_app_r.
Qed.

(** C3.  On every list of entries (missing, empty, non-HTTP and repeated
    ones included) the filtering loop of [get_urls] returns the first
    occurrences of the [http://] and [https://] entries in their input
    order: its output has no duplicates, holds only such entries, is a
    subsequence of the input, extends the output of every shorter input,
    and drops no accepted entry. *)
Theorem clean_urls_dedup (urls : list (option pystr)) :
  clean_urls urls = first_occurrences (http_entries urls)
  /\ NoDup (clean_urls urls)
  /\ Forall (fun u => is_http u = true) (clean_urls urls)
  /\ Some <$> clean_urls urls `sublist_of` urls
  /\ (forall pre post, urls = pre ++ post ->
        clean_urls pre `prefix_of` clean_urls urls)
  /\ (forall u, u ∈ clean_urls urls <-> Some u ∈ urls /\ is_http u = true).
Proof.
  split_and!.
  - apply clean_urls_spec.
  - apply clean_urls_NoDup.
  - apply clean_urls_is_http.
  - rewrite clean_urls_spec.
    etrans; [apply sublist_fmap_Some, sublist_first_occurrences|].
    apply sublist_http_entries.
  - intros pre post ->. unfold clean_urls. rewrite fold_left_app.
    destruct (fold_left clean_step pre (∅, [])) as [seen clean].
    apply clean_loop_prefix.
  - apply elem_of_clean_urls.
Qed.

Lemma clean_urls_dedup_witness :
  clean_urls [Some (lit "http://a"); None; Some []; Some (lit "ftp://x");
              Some (lit "http://a"); Some (lit "https://b")]
  = [lit "http://a"; lit "https://b"].
Proof.
  etrans;
    [apply (clean_urls_dedup [Some (lit "http://a"); None; Some [];
              Some (lit "ftp://x"); Some (lit "http://a"); Some (lit "https://b")])|].
  reflexivity.
Defined.

(** ** Provider selection in [get_urls] *)

(** C6, as stated, fails: the identifier [Google] is neither
    [duckduckgo] nor [google], yet [get_urls] lower-cases it and returns
    what the Google provider answers. *)
Lemma get_urls_unknown_provider_counterexample :
  lit "Google" <> lit "duckduckgo"
  /\ lit "Google" <> lit "google"
  /\ get_urls world_google 0 (lit "q") 4 (Some (lit "Google"))
     = [lit "http://a.example/"]
  /\ get_urls world_google 0 (lit "q") 4 (Some (lit "Google")) <> [].
Proof. split_and!; [done|done|reflexivity|done]. Qed.

(** C6, amended.  For every query and result count, a provider
    identifier which, once a missing or empty one is replaced by
    [duckduckgo] and the result is lower-cased, is neither [duckduckgo]
    nor [google], makes [get_urls] return the empty list; no provider is
    called and nothing is raised. *)
Theorem get_urls_unknown_provider (w : world) (k : nat) (query : pystr)
    (num_results : Z) (provider : option pystr) :
  str_lower (provider_or_default provider) <> lit "duckduckgo" ->
  str_lower (provider_or_default provider) <> lit "google" ->
  get_urls w k query num_results provider = [].
Proof.
  intros Hd Hg. unfold get_urls.
  rewrite (bool_decide_eq_false_2 _ Hd), (bool_decide_eq_false_2 _ Hg).
  reflexivity.
Qed.

Lemma get_urls_unknown_provider_witness :
  get_urls world_google 0 (lit "q") 4 (Some (lit "Bing")) = [].
Proof.
  apply (get_urls_unknown_provider world_google 0 (lit "q") 4 (Some (lit "Bing")));
    vm_compute; congruence.
Defined.

Lemma get_urls_is_http w k query n provider :
  Forall (fun u => is_http u = true) (get_urls w k query n provider).
Proof. unfold get_urls. apply clean_urls_is_http. Qed.

Lemma get_urls_NoDup w k query n provider :
  NoDup (get_urls w k query n provider).
Proof. unfold get_urls. apply clean_urls_NoDup. Qed.

(** ** [fetch_and_save] *)

Lemma fetch_and_save_returns w st url folder :
  encodable url ->
  exists fs r,
    fetch_and_save w st url folder
    = Returned (State fs (trace st ++ [EvFetch url r]) (searches st)
                  (S (fetches st)), r).
Proof.
  intros [filename Hf]. unfold fetch_and_save. rewrite Hf.
  destruct (http_get w (fetches st) url) as [|text []];
    try destruct (utf8_encode text); by eexists _, _.
Qed.

Lemma fetch_and_save_raises w st url folder :
  encode_url_to_filename url = None ->
  fetch_and_save w st url folder = Raised UnicodeEncodeError.
Proof. intros Hf. unfold fetch_and_save. by rewrite Hf. Qed.

(** Only the file named after the URL can change. *)
Lemma fetch_and_save_files w st url folder filename st' r p :
  encode_url_to_filename url = Some filename ->
  fetch_and_save w st url folder = Returned (st', r) ->
  p <> os_path_join folder filename ->
  files st' !! p = files st !! p.
Proof.
  intros Hf. unfold fetch_and_save. rewrite Hf.
  destruct (http_get w (fetches st) url) as [|text []];
    try destruct (utf8_encode text); intros [= <- <-] Hp; cbn;
    by rewrite ?lookup_insert_ne.
Qed.

(** ** The loops of [fetch_web_pages] *)

Lemma attempted_app tr1 tr2 : attempted (tr1 ++ tr2) = attempted tr1 ++ attempted tr2.
Proof. apply omap_app. Qed.

Lemma fetch_results_app tr1 tr2 :
  fetch_results (tr1 ++ tr2) = fetch_results tr1 ++ fetch_results tr2.
Proof. apply omap_app. Qed.

Lemma fetch_results_batch_events results :
  fetch_results (batch_events results) = results.
Proof.
  induction results as [|[u r] results IH]; [done|].
  cbn. f_equal. apply IH.
Qed.

Lemma fetch_results_run_events batches :
  fetch_results (run_events batches) = concat batches.
Proof.
  induction batches as [|b batches IH]; [done|].
  cbn [run_events flat_map concat]. fold (run_events batches).
  rewrite !fetch_results_app, fetch_results_batch_events, IH.
  by rewrite <- app_assoc.
Qed.



Lemma fetch_batch_returns w folder urls st :
  Forall encodable urls ->
  Forall (fun u => is_http u = true) urls ->
  exists st' results,
    fetch_batch w st urls folder = Returned st'
    /\ trace st' = trace st ++ batch_events results
    /\ results.*1 = urls
    /\ searches st' = searches st.
Proof.
  intros Henc. revert st. induction Henc as [|url urls Hu _ IH]; intros st Hhttp.
  { exists st, []. cbn. by rewrite app_nil_r. }
  apply Forall_cons in Hhttp as [Hurl Hhttp]. cbn [fetch_batch].
  rewrite Hurl. cbn [negb].
  destruct (fetch_and_save_returns w st url folder Hu) as (fs & r & ->).
  cbn [mbind outcome_bind].
  edestruct IH as (st' & results & -> & Htr & Hres & Hs); [done|].
  exists st', ((url, r) :: results). split_and!; [done| |by cbn; f_equal|done].
  rewrite Htr. cbn. by rewrite <- !app_assoc.
Qed.

Lemma fetch_queries_returns w n provider folder queries st :
  Forall (Forall encodable) (schedule w (searches st) queries n provider) ->
  exists st' batches,
    fetch_queries w st queries n provider folder = Returned st'
    /\ trace st' = trace st ++ run_events batches
    /\ map (map fst) batches
       = filter (fun l => l <> []) (schedule w (searches st) queries n provider).
Proof.
  revert st. induction queries as [|q queries IH]; intros st Henc.
  { exists st, []. cbn. by rewrite app_nil_r. }
  cbn [schedule] in Henc. apply Forall_cons in Henc as [Hq Henc].
  cbn [fetch_queries schedule].
  pose proof (get_urls_is_http w (searches st) q n provider) as Hhttp.
  destruct (get_urls w (searches st) q n provider) as [|u urls] eqn:Hurls.
  - destruct (IH (count_search st)) as (st' & batches & -> & Htr & Hb); [done|].
    exists st', batches. rewrite filter_cons_False by (intros ?; done).
    done.
  - destruct (fetch_batch_returns w folder (u :: urls) (count_search st))
      as (st1 & results & -> & Htr1 & Hres & Hs1); [done..|].
    cbn [mbind outcome_bind].
    destruct (IH (sleep 1 st1)) as (st' & batches & -> & Htr & Hb).
    { cbn. by rewrite Hs1. }
    exists st', (results :: batches). split_and!; [done| |].
    + rewrite Htr. cbn. rewrite Htr1. cbn. by rewrite <- !app_assoc.
    + rewrite filter_cons_True by done. cbn [map]. rewrite Hb, <- Hres.
      cbn. by rewrite Hs1.
Qed.

Lemma fetch_web_pages_returns w st queries n provider folder :
  Forall (Forall encodable) (schedule w (searches st) queries n provider) ->
  exists st' batches,
    fetch_web_pages w st queries n provider folder = Returned (st', true)
    /\ trace st' = trace st ++ run_events batches
    /\ map (map fst) batches
       = filter (fun l => l <> []) (schedule w (searches st) queries n provider).
Proof.
  intros Henc. unfold fetch_web_pages.
  destruct (fetch_queries_returns w n provider folder queries st Henc)
    as (st' & batches & -> & Htr & Hb).
  by exists st', batches.
Qed.


(** ** The batch as a whole *)




(** ** Pacing and attempts *)


Lemma pacing_delay_order path :
  (pacing_delay (Some path) < pacing_delay None)%Q.
Proof. reflexivity. Qed.



(** ** De-duplication across queries *)







(** ** Files and failed fetches *)

(** C7 at its failing input: a page whose text holds a lone surrogate.
    [open] has created the file when [write] raises, so [fetch_and_save]
    reports a failure and yet leaves a file, empty, in the download
    directory. *)
Theorem failed_fetch_leaves_file :
  exists st',
    fetch_web_pages world_surrogate_page init [lit "q"] 1
      (Some (lit "duckduckgo")) DOWNLOAD_DIR = Returned (st', true)
    /\ fetch_results (trace st') = [(lit "http://a.example/", None)]
    /\ files init !! lit "./downloaded/http%3A%2F%2Fa.example%2F" = None
    /\ files st' !! lit "./downloaded/http%3A%2F%2Fa.example%2F" = Some [].
Proof.
  eexists. split_and!; [vm_compute; reflexivity..].
Qed.

#[local] Instance saved_by_success_preorder : PreOrder saved_by_success.
Proof.
  split.
  - intros st. exists []. rewrite app_nil_r. split; [done|]. by left.
  - intros st1 st2 st3 (tr1 & Ht1 & H1) (tr2 & Ht2 & H2).
    exists (tr1 ++ tr2). split; [by rewrite Ht2, Ht1, app_assoc|].
    intros p Hp. rewrite fetch_results_app.
    destruct (H2 p Hp) as [Hp2|[u Hu]]; [|right; exists u; set_solver].
    destruct (H1 p Hp2) as [?|[u Hu]]; [by left|right; exists u; set_solver].
Qed.

(** What the loops preserve: any preorder on states that the three kinds
    of step respect. *)
Section loops.
Context (w : world) (folder : pystr) (R : relation state) `{!PreOrder R}.
Hypothesis fetch_step : forall st url st' r,
  fetch_and_save w st url folder = Returned (st', r) -> R st st'.
Hypothesis sleep_step : forall st d, R st (sleep d st).
Hypothesis search_step : forall st, R st (count_search st).

Lemma fetch_batch_preserves urls st st' :
  fetch_batch w st urls folder = Returned st' -> R st st'.
Proof.
  revert st. induction urls as [|url urls IH]; intros st; cbn [fetch_batch].
  { by intros [= ->]. }
  destruct (negb (is_http url)); [apply IH|].
  destruct (fetch_and_save w st url folder) as [[st1 r]|e] eqn:Hf; [|done].
  cbn [mbind outcome_bind]. intros Hrest%IH.
  etrans; [by eapply fetch_step|]. etrans; [apply sleep_step|done].
Qed.

Lemma fetch_queries_preserves queries n provider st st' :
  fetch_queries w st queries n provider folder = Returned st' -> R st st'.
Proof.
  revert st. induction queries as [|q queries IH]; intros st;
    cbn [fetch_queries].
  { by intros [= ->]. }
  destruct (get_urls w (searches st) q n provider) as [|u urls].
  { intros Hrest%IH. etrans; [apply search_step|done]. }
  destruct (fetch_batch w (count_search st) (u :: urls) folder)
    as [st1|e] eqn:Hb; [|done].
  cbn [mbind outcome_bind]. intros Hrest%IH.
  apply fetch_batch_preserves in Hb.
  etrans; [apply search_step|]. etrans; [done|].
  etrans; [apply sleep_step|done].
Qed.
End loops.

(** Where writes complete, one [fetch_and_save] either fails and leaves
    the directory as it was, or succeeds and writes the one file it
    returns. *)
Lemma fetch_and_save_writes w st url folder st' r :
  writes_complete w ->
  fetch_and_save w st url folder = Returned (st', r) ->
  trace st' = trace st ++ [EvFetch url r]
  /\ match r with
     | None => files st' = files st
     | Some p => exists bytes, files st' = <[p := bytes]> (files st)
     end.
Proof.
  intros Hw. unfold fetch_and_save.
  destruct (encode_url_to_filename url) as [filename|]; [|done].
  destruct (http_get w (fetches st) url) as [|text io] eqn:Hget.
  { by intros [= <- <-]. }
  destruct (Hw _ _ _ _ Hget) as [Hio [bytes Hbytes]]. rewrite Hbytes.
  destruct io; [|by intros [= <- <-]|done].
  intros [= <- <-]. split; [done|]. exists bytes. cbn.
  by rewrite insert_insert_eq.
Qed.

(** Apart from the failure of a write, every file of the directory that
    a run brings was saved by a fetch that succeeded. *)
Lemma files_saved_by_success w st queries n provider folder st' v :
  writes_complete w ->
  fetch_web_pages w st queries n provider folder = Returned (st', v) ->
  saved_by_success st st'.
Proof.
  intros Hw. unfold fetch_web_pages.
  destruct (fetch_queries w st queries n provider folder) as [st1|e] eqn:Hq;
    [|done].
  intros [= <- <-]. revert Hq.
  apply (fetch_queries_preserves w folder saved_by_success).
  - intros s url s' r Hf.
    destruct (fetch_and_save_writes _ _ _ _ _ _ Hw Hf) as [Htr Hfiles].
    exists [EvFetch url r]. split; [done|]. intros p Hp.
    destruct r as [p'|]; [|left; by rewrite <- Hfiles].
    destruct Hfiles as [bytes Hfiles]. rewrite Hfiles in Hp.
    destruct (decide (p = p')) as [->|Hne].
    + right. exists url. cbn. set_solver.
    + left. by rewrite lookup_insert_ne in Hp.
  - intros s d. exists [EvSleep d]. split; [done|]. by left.
  - intros s. exists []. split; [by rewrite app_nil_r|]. by left.
Qed.

(** ** File names and paths *)

Lemma quote_no_slash s f : quote s = Some f -> SLASH ∉ f.
Proof.
  intros Hq Hin. apply quote_chars in Hq.
  rewrite Forall_forall in Hq. by apply (quoted_char_not_slash _ (Hq _ Hin)).
Qed.

Lemma contains_false c s : c ∉ s -> contains c s = false.
Proof.
  unfold contains. induction s as [|a s IH]; [done|].
  rewrite not_elem_of_cons. intros [Hne Hs]. cbn [existsb].
  by rewrite (proj2 (Z.eqb_neq c a)), IH.
Qed.

Lemma contains_true c s : c ∈ s -> contains c s = true.
Proof.
  unfold contains. induction 1 as [a s|a b s _ IH]; cbn [existsb].
  - by rewrite Z.eqb_refl.
  - by rewrite IH, orb_true_r.
Qed.

Lemma basename_plain f : SLASH ∉ f -> basename f = f.
Proof.
  destruct f as [|c r]; [done|]. rewrite not_elem_of_cons. intros [Hc Hr].
  cbn [basename]. rewrite contains_false by done.
  by rewrite (proj2 (Z.eqb_neq c SLASH)).
Qed.

Lemma basename_after_slash a f : SLASH ∉ f -> basename (a ++ SLASH :: f) = f.
Proof.
  intros Hf. induction a as [|c a IH]; cbn [app basename].
  - by rewrite contains_false, Z.eqb_refl.
  - rewrite contains_true by set_solver. apply IH.
Qed.

Lemma startswith_slash_false f : SLASH ∉ f -> startswith [SLASH] f = false.
Proof.
  destruct f as [|c r]; [done|]. rewrite not_elem_of_cons. intros [Hc _].
  cbn [startswith]. by rewrite (proj2 (Z.eqb_neq SLASH c)).
Qed.

Lemma os_path_join_inside a f :
  SLASH ∉ f ->
  (os_path_join a f = a ++ f \/ os_path_join a f = a ++ SLASH :: f)
  /\ basename (os_path_join a f) = f.
Proof.
  intros Hf. unfold os_path_join. rewrite startswith_slash_false by done.
  destruct (last a) as [c|] eqn:Hlast.
  - destruct (Z.eqb_spec c SLASH) as [->|Hc].
    + split; [by left|]. apply last_Some in Hlast as [a' ->].
      rewrite <- app_assoc. by apply basename_after_slash.
    + split; [by right|]. by apply basename_after_slash.
  - apply last_None in Hlast as ->. split; [by left|]. by apply basename_plain.
Qed.

(** The file name of an HTTP URL starts with the letter [h]. *)
Lemma encode_http_url url filename :
  is_http url = true ->
  encode_url_to_filename url = Some filename ->
  exists rest, filename = 104 :: rest.
Proof.
  intros Hh. assert (exists r, url = 104 :: r) as [r ->].
  { unfold is_http in Hh. apply orb_true_iff in Hh.
    destruct url as [|c r]; [by destruct Hh|]. exists r.
    destruct Hh as [Hh|Hh]; cbn in Hh;
      apply andb_true_iff in Hh as [Hc%Z.eqb_eq _]; by subst. }
  unfold encode_url_to_filename, quote. cbn [utf8_encode].
  change (utf8_encode_char 104) with (Some [104]).
  destruct (utf8_encode r) as [bs|]; [|done].
  intros [= <-]. destruct (forallb always_safe bs); by eexists.
Qed.

(** C10.  The file name [encode_url_to_filename] gives for a URL holds no
    path separator; hence the path [fetch_and_save] builds is the
    download directory followed by that single component, and it is the
    only path at which [fetch_and_save] changes the file system.  For the
    HTTP(S) URLs the pipeline fetches, the name is moreover none of the
    empty name, [.] and [..]. *)
Theorem filename_has_no_separator (url filename folder : pystr) :
  encode_url_to_filename url = Some filename ->
  (SLASH ∉ filename)
  /\ (os_path_join folder filename = folder ++ filename
      \/ os_path_join folder filename = folder ++ SLASH :: filename)
  /\ basename (os_path_join folder filename) = filename
  /\ (is_http url = true ->
      filename <> [] /\ filename <> lit "." /\ filename <> lit "..")
  /\ (forall w st st' r p,
        fetch_and_save w st url folder = Returned (st', r) ->
        files st' !! p <> files st !! p ->
        p = os_path_join folder filename).
Proof.
  intros Hf. pose proof (quote_no_slash _ _ Hf) as Hslash.
  destruct (os_path_join_inside folder filename Hslash) as [Hjoin Hbase].
  split_and!; [done..| |].
  - intros Hh. destruct (encode_http_url _ _ Hh Hf) as [rest ->]. done.
  - intros w st st' r p Hrun Hp.
    destruct (decide (p = os_path_join folder filename)) as [|Hne]; [done|].
    destruct Hp. by eapply fetch_and_save_files.
Qed.

Lemma filename_has_no_separator_witness :
  (SLASH ∉ lit "http%3A%2F%2Fa.example%2F..%2F..%2Fetc")
  /\ (os_path_join DOWNLOAD_DIR (lit "http%3A%2F%2Fa.example%2F..%2F..%2Fetc")
      = DOWNLOAD_DIR ++ lit "http%3A%2F%2Fa.example%2F..%2F..%2Fetc"
      \/ os_path_join DOWNLOAD_DIR (lit "http%3A%2F%2Fa.example%2F..%2F..%2Fetc")
         = DOWNLOAD_DIR ++ SLASH :: lit "http%3A%2F%2Fa.example%2F..%2F..%2Fetc")
  /\ basename (os_path_join DOWNLOAD_DIR
                 (lit "http%3A%2F%2Fa.example%2F..%2F..%2Fetc"))
     = lit "http%3A%2F%2Fa.example%2F..%2F..%2Fetc"
  /\ (is_http (lit "http://a.example/../../etc") = true ->
      lit "http%3A%2F%2Fa.example%2F..%2F..%2Fetc" <> []
      /\ lit "http%3A%2F%2Fa.example%2F..%2F..%2Fetc" <> lit "."
      /\ lit "http%3A%2F%2Fa.example%2F..%2F..%2Fetc" <> lit "..")
  /\ (forall w st st' r p,
        fetch_and_save w st (lit "http://a.example/../../etc") DOWNLOAD_DIR
        = Returned (st', r) ->
        files st' !! p <> files st !! p ->
        p = os_path_join DOWNLOAD_DIR
              (lit "http%3A%2F%2Fa.example%2F..%2F..%2Fetc")).
Proof.
  apply (filename_has_no_separator (lit "http://a.example/../../etc")
           (lit "http%3A%2F%2Fa.example%2F..%2F..%2Fetc") DOWNLOAD_DIR).
  reflexivity.
Defined.

(** ** [extract_queries] *)

Example extract_queries_unreachable :
  extract_queries runtime_unreachable (lit "capital of France") None
  = [lit "capital of France"].
Proof. reflexivity. Qed.




(** ** The step budget of the JSON scanner *)

Lemma skip_ws_length s : (length (skip_ws s) <= length s)%nat.
Proof.
  induction s as [|c r IH]; cbn [skip_ws]; [done|].
  destruct (is_json_ws c); cbn [length]; lia.
Qed.

Lemma span_digits_length s d rest :
  span_digits s = (d, rest) -> length s = (length d + length rest)%nat.
Proof.
  revert d rest. induction s as [|c r IH]; intros d rest; cbn [span_digits].
  { by intros [= <- <-]. }
  destruct (is_digit c); [|by intros [= <- <-]].
  destruct (span_digits r) as [d' rest'] eqn:Hr. intros [= <- <-].
  cbn [length]. by rewrite (IH _ _ eq_refl).
Qed.

Lemma match_integer_length s i rest :
  match_integer s = Some (i, rest) -> (length rest < length s)%nat.
Proof.
  unfold match_integer.
  destruct s as [|c r]; [done|].
  destruct (c =? 45).
  - destruct r as [|c' r']; [done|]. cbn [length].
    destruct (c' =? 48); [intros [= <- <-]; lia|].
    destruct (is_digit c'); [|done].
    destruct (span_digits r') as [d rest'] eqn:Hr. intros [= <- <-].
    apply span_digits_length in Hr. lia.
  - cbn [length]. destruct (c =? 48); [intros [= <- <-]; lia|].
    destruct (is_digit c); [|done].
    destruct (span_digits r) as [d rest'] eqn:Hr. intros [= <- <-].
    apply span_digits_length in Hr. lia.
Qed.

Lemma match_frac_length s f rest :
  match_frac s = (f, rest) -> (length rest <= length s)%nat.
Proof.
  unfold match_frac. destruct s as [|c r]; [by intros [= <- <-]|].
  destruct (c =? 46); [|by intros [= <- <-]].
  destruct (span_digits r) as [[|d ds] rest'] eqn:Hr; intros [= <- <-]; [done|].
  apply span_digits_length in Hr. cbn [length] in *. lia.
Qed.

Lemma match_exp_length s e rest :
  match_exp s = (e, rest) -> (length rest <= length s)%nat.
Proof.
  unfold match_exp. destruct s as [|c r]; [by intros [= <- <-]|].
  destruct ((c =? 101) || (c =? 69)); [|by intros [= <- <-]].
  assert (exists sign r1,
            match r with
            | c0 :: r' => if (c0 =? 45) || (c0 =? 43) then ([c0], r') else ([], r)
            | [] => ([], r)
            end = (sign, r1) /\ (length r1 <= length r)%nat)
    as (sign & r1 & -> & Hr1).
  { destruct r as [|c0 r']; [by eexists _, _|].
    destruct ((c0 =? 45) || (c0 =? 43)); eexists _, _; split; try done.
    cbn [length]. lia. }
  destruct (span_digits r1) as [[|d ds] rest'] eqn:Hr; intros [= <- <-]; [done|].
  apply span_digits_length in Hr. cbn [length] in *. lia.
Qed.

Lemma match_number_length s v rest :
  match_number s = Some (v, rest) -> (length rest < length s)%nat.
Proof.
  unfold match_number.
  destruct (match_integer s) as [[i s1]|] eqn:Hi; [|done].
  destruct (match_frac s1) as [f s2] eqn:Hf.
  destruct (match_exp s2) as [e s3] eqn:He.
  apply match_integer_length in Hi. apply match_frac_length in Hf.
  apply match_exp_length in He.
  destruct f, e; intros [= <- <-]; lia.
Qed.

Lemma hex4_length s u rest :
  hex4 s = Some (u, rest) -> length s = (length rest + 4)%nat.
Proof.
  unfold hex4. destruct s as [|a [|b [|c [|d r]]]]; try done.
  destruct (hexval a), (hexval b), (hexval c), (hexval d); try done.
  intros [= <- <-]. cbn [length]. lia.
Qed.


Lemma scan_string_length fuel acc s v rest :
  scan_string fuel acc s = Parsed v rest -> (length rest < length s)%nat.
Proof.
  revert acc s. induction fuel as [|fuel IH]; intros acc s; [done|].
  cbn [scan_string]. destruct s as [|c r]; [done|]. cbn [length].
  destruct (c =? 34); [intros [= <- <-]; lia|].
  destruct (c =? 92).
  - destruct r as [|e r1]; [done|]. cbn [length].
    destruct (e =? 117).
    + destruct (hex4 r1) as [[uni r2]|] eqn:H1; [|done].
      apply hex4_length in H1.
      destruct ((55296 <=? uni) && (uni <=? 56319) && startswith [92; 117] r2).
      * destruct (hex4 (drop 2 r2)) as [[uni2 r3]|] eqn:H2; [|done].
        apply hex4_length in H2. rewrite length_drop in H2.
        destruct ((56320 <=? uni2) && (uni2 <=? 57343));
          intros Hs%IH; lia.
      * intros Hs%IH. lia.
    + destruct (unescape e); [|done]. intros Hs%IH. lia.
  - destruct (c <? 32); [done|]. intros Hs%IH. lia.
Qed.

Lemma scan_string_fuel fuel acc s :
  (length s < fuel)%nat -> scan_string fuel acc s <> OutOfFuel.
Proof.
  revert acc s. induction fuel as [|fuel IH]; intros acc s Hlen; [lia|].
  cbn [scan_string]. destruct s as [|c r]; [done|]. cbn [length] in Hlen.
  destruct (c =? 34); [done|].
  destruct (c =? 92).
  - destruct r as [|e r1]; [done|]. cbn [length] in Hlen.
    destruct (e =? 117).
    + destruct (hex4 r1) as [[uni r2]|] eqn:H1; [|done].
      apply hex4_length in H1.
      destruct ((55296 <=? uni) && (uni <=? 56319) && startswith [92; 117] r2).
      * destruct (hex4 (drop 2 r2)) as [[uni2 r3]|] eqn:H2; [|done].
        apply hex4_length in H2. rewrite length_drop in H2.
        destruct ((56320 <=? uni2) && (uni2 <=? 57343)); apply IH; lia.
      * apply IH. lia.
    + destruct (unescape e); [|done]. apply IH. lia.
  - destruct (c <? 32); [done|]. apply IH. lia.
Qed.

Lemma parse_string_length s v rest :
  parse_string s = Parsed v rest -> (length rest < length s)%nat.
Proof. apply scan_string_length. Qed.

Lemma parse_string_fuel s : parse_string s <> OutOfFuel.
Proof. apply scan_string_fuel. lia. Qed.

Lemma parsed_map_inv {A B} (f : A -> B) p b rest :
  parsed_map f p = Parsed b rest -> exists a, p = Parsed a rest /\ b = f a.
Proof. destruct p; intros [= <- <-] || done. by eexists. Qed.

(** Every scanner consumes at least one character. *)
Lemma parse_value_length fuel :
  (forall s v rest, parse_value fuel s = Parsed v rest ->
     (length rest < length s)%nat)
  /\ (forall acc s v rest, parse_elements fuel acc s = Parsed v rest ->
        (length rest < length s)%nat)
  /\ (forall acc s v rest, parse_members fuel acc s = Parsed v rest ->
        (length rest < length s)%nat).
Proof.
  induction fuel as [|fuel (IHv & IHe & IHm)]; [done|]. split_and!.
  - intros s v rest. cbn [parse_value]. destruct s as [|c r]; [done|].
    destruct (c =? 34).
    { intros (a & Ha%parse_string_length & _)%parsed_map_inv. cbn [length]. lia. }
    destruct (c =? 123).
    { pose proof (skip_ws_length r) as Hws.
      destruct (skip_ws r) as [|c1 r1]; [done|]. cbn [length] in *.
      destruct (c1 =? 125); [intros [= <- <-]; lia|].
      destruct (c1 =? 34); [|done]. intros H%IHm. lia. }
    destruct (c =? 91).
    { pose proof (skip_ws_length r) as Hws.
      destruct (skip_ws r) as [|c1 r1]; [done|]. cbn [length] in *.
      destruct (c1 =? 93); [intros [= <- <-]; lia|].
      intros H%IHe. cbn [length] in H. lia. }
    repeat (case_match; [intros [= <- <-]; rewrite length_drop; cbn [length]; lia|]).
    destruct (match_number (c :: r)) as [[v' rest']|] eqn:Hn.
    { intros [= <- <-]. by apply match_number_length in Hn. }
    repeat (case_match; [intros [= <- <-]; rewrite length_drop; cbn [length]; lia|]).
    done.
  - intros acc s v rest. cbn [parse_elements].
    destruct (parse_value fuel s) as [v1 rest1| |] eqn:Hv; [|done..].
    apply IHv in Hv. pose proof (skip_ws_length rest1) as Hws.
    destruct (skip_ws rest1) as [|c r]; [done|]. cbn [length] in *.
    destruct (c =? 93); [intros [= <- <-]; lia|].
    destruct (c =? 44); [|done]. intros H%IHe.
    pose proof (skip_ws_length r). lia.
  - intros acc s v rest. cbn [parse_members].
    destruct (parse_string s) as [key rest0| |] eqn:Hk; [|done..].
    apply parse_string_length in Hk. pose proof (skip_ws_length rest0) as Hws.
    destruct (skip_ws rest0) as [|c r]; [done|]. cbn [length] in *.
    destruct (c =? 58); [|done].
    destruct (parse_value fuel (skip_ws r)) as [v1 rest1| |] eqn:Hv; [|done..].
    apply IHv in Hv. pose proof (skip_ws_length r).
    pose proof (skip_ws_length rest1) as Hws1.
    destruct (skip_ws rest1) as [|c1 r1]; [done|]. cbn [length] in *.
    destruct (c1 =? 125); [intros [= <- <-]; lia|].
    destruct (c1 =? 44); [|done].
    pose proof (skip_ws_length r1) as Hws2.
    destruct (skip_ws r1) as [|c2 r2]; [done|]. cbn [length] in *.
    destruct (c2 =? 34); [|done]. intros Hm%IHm. lia.
Qed.

(** With two steps for each character no scanner exhausts its budget. *)
Lemma parse_value_budget fuel :
  (forall s, (2 * length s < fuel)%nat -> parse_value fuel s <> OutOfFuel)
  /\ (forall acc s, (2 * length s + 1 < fuel)%nat ->
        parse_elements fuel acc s <> OutOfFuel)
  /\ (forall acc s, (2 * length s + 1 < fuel)%nat ->
        parse_members fuel acc s <> OutOfFuel).
Proof.
  induction fuel as [|fuel (IHv & IHe & IHm)]; [split_and!; intros; lia|].
  destruct (parse_value_length fuel) as (Lv & Le & Lm). split_and!.
  - intros s Hlen. cbn [parse_value]. destruct s as [|c r]; [done|].
    cbn [length] in Hlen.
    destruct (c =? 34).
    { pose proof (parse_string_fuel r). by destruct (parse_string r). }
    destruct (c =? 123).
    { pose proof (skip_ws_length r) as Hws.
      destruct (skip_ws r) as [|c1 r1]; [done|]. cbn [length] in *.
      destruct (c1 =? 125); [done|].
      destruct (c1 =? 34); [|done]. apply IHm. lia. }
    destruct (c =? 91).
    { pose proof (skip_ws_length r) as Hws.
      destruct (skip_ws r) as [|c1 r1]; [done|]. cbn [length] in *.
      destruct (c1 =? 93); [done|]. apply IHe. cbn [length]. lia. }
    by repeat case_match.
  - intros acc s Hlen. cbn [parse_elements].
    destruct (parse_value fuel s) as [v1 rest1| |] eqn:Hv; [|done|].
    + apply Lv in Hv. pose proof (skip_ws_length rest1) as Hws.
      destruct (skip_ws rest1) as [|c r]; [done|]. cbn [length] in *.
      destruct (c =? 93); [done|].
      destruct (c =? 44); [|done]. apply IHe.
      pose proof (skip_ws_length r). lia.
    + by apply IHv in Hv; [|lia].
  - intros acc s Hlen. cbn [parse_members].
    pose proof (parse_string_fuel s).
    destruct (parse_string s) as [key rest0| |] eqn:Hk; [|done..].
    apply parse_string_length in Hk. pose proof (skip_ws_length rest0) as Hws.
    destruct (skip_ws rest0) as [|c r]; [done|]. cbn [length] in *.
    destruct (c =? 58); [|done]. pose proof (skip_ws_length r).
    destruct (parse_value fuel (skip_ws r)) as [v1 rest1| |] eqn:Hv; [|done|].
    + apply Lv in Hv. pose proof (skip_ws_length rest1) as Hws1.
      destruct (skip_ws rest1) as [|c1 r1]; [done|]. cbn [length] in *.
      destruct (c1 =? 125); [done|].
      destruct (c1 =? 44); [|done].
      pose proof (skip_ws_length r1) as Hws2.
      destruct (skip_ws r1) as [|c2 r2]; [done|]. cbn [length] in *.
      destruct (c2 =? 34); [|done]. apply IHm. lia.
    + by apply IHv in Hv; [|lia].
Qed.

(** [json_loads] never fails for want of steps. *)
Lemma parse_value_fuel s : parse_value (json_fuel s) s <> OutOfFuel.
Proof. apply parse_value_budget. unfold json_fuel. lia. Qed.

(** ** Prompt assembly without documents *)




(** ** The model at work *)

Example get_urls_example :
  get_urls world_two_queries 0 (lit "first") 3 None
  = [lit "http://a.example/"; lit "http://b.example/"; lit "http://c.example/"].
Proof. reflexivity. Qed.

Example json_loads_array :
  json_loads (lit " [1, -2.5e3, true, null, []] ")
  = Some (JArray [JInt 1; JFloat (lit "-2.5e3"); JBool true; JNull; JArray []]).
Proof. vm_compute. reflexivity. Qed.

Example json_loads_trailing_comma : json_loads (lit "[1,]") = None.
Proof. vm_compute. reflexivity. Qed.

Example content_lines_example :
  content_lines (lit "1. capital of France" ++ [10; 10] ++ lit "  Paris  " ++ [13; 10])
  = [lit "1. capital of France"; lit "Paris"].
Proof. vm_compute. reflexivity. Qed.

Example fetch_web_pages_example :
  exists st',
    fetch_web_pages world_page_ok init [lit "q"] 1 None DOWNLOAD_DIR
    = Returned (st', true)
    /\ trace st'
       = [EvFetch (lit "http://a.example/")
            (Some (lit "./downloaded/http%3A%2F%2Fa.example%2F"));
          EvSleep 1; EvSleep 1]
    /\ files st' !! lit "./downloaded/http%3A%2F%2Fa.example%2F"
       = Some (lit "text").
Proof. eexists. split_and!; vm_compute; reflexivity. Qed.

(** * Further properties of the code *)

(** ** File names: collisions, failures, alphabet, length *)

Lemma utf8_encode_Some_scalar s bs :
  utf8_encode s = Some bs -> Forall is_scalar s.
Proof.
  revert bs. induction s as [|c s IH]; intros bs; cbn [utf8_encode];
    [constructor|].
  destruct (utf8_encode_char c) as [b|] eqn:Hc; [|done].
  destruct (utf8_encode s) as [bs'|]; [|done]. intros _.
  constructor; [by eapply utf8_encode_char_Some|by eapply IH].
Qed.

Lemma os_path_join_inj folder f1 f2 :
  SLASH ∉ f1 -> SLASH ∉ f2 ->
  os_path_join folder f1 = os_path_join folder f2 -> f1 = f2.
Proof.
  intros H1 H2. unfold os_path_join.
  rewrite !startswith_slash_false by done.
  destruct (last folder) as [c|]; [destruct (c =? SLASH)|];
    intros Heq; apply app_inv_head in Heq; by simplify_eq.
Qed.

(** X1.  Two different URLs never share a file: their file names differ,
    and so do the paths built from them in the same folder. *)
Theorem distinct_urls_distinct_files (url1 url2 f1 f2 folder : pystr) :
  url1 <> url2 ->
  encode_url_to_filename url1 = Some f1 ->
  encode_url_to_filename url2 = Some f2 ->
  f1 <> f2 /\ os_path_join folder f1 <> os_path_join folder f2.
Proof.
  intros Hne H1 H2.
  assert (f1 <> f2) as Hf.
  { intros ->. apply Hne.
    by rewrite <- (unquote_quote _ _ H1), <- (unquote_quote _ _ H2). }
  split; [done|]. intros Hp. apply Hf.
  eapply os_path_join_inj; [by eapply quote_no_slash..|done].
Qed.

Lemma distinct_urls_distinct_files_witness :
  lit "http%3A%2F%2Fa.example%2Fx" <> lit "http%3A%2F%2Fa.example%2FX"
  /\ os_path_join DOWNLOAD_DIR (lit "http%3A%2F%2Fa.example%2Fx")
     <> os_path_join DOWNLOAD_DIR (lit "http%3A%2F%2Fa.example%2FX").
Proof.
  apply (distinct_urls_distinct_files (lit "http://a.example/x")
           (lit "http://a.example/X")); [vm_compute; congruence|reflexivity..].
Defined.

(** X2.  [encode_url_to_filename] raises exactly on the strings that hold
    a code point UTF-8 cannot carry (a lone surrogate); on every other
    string it returns a name. *)
Theorem encode_fails_on_surrogates_only (url : pystr) :
  encode_url_to_filename url = None <-> ~ Forall is_scalar url.
Proof.
  unfold encode_url_to_filename. split.
  - intros Hnone Hs. destruct (quote_scalar url Hs) as [f Hf]. congruence.
  - intros Hs. unfold quote. destruct url as [|c s]; [by destruct Hs|].
    destruct (utf8_encode (c :: s)) as [bs|] eqn:He; [|done].
    destruct Hs. by eapply utf8_encode_Some_scalar.
Qed.

Lemma utf8_encode_ascii s : Forall is_ascii s -> utf8_encode s = Some s.
Proof.
  induction 1 as [|c s Hc _ IH]; [done|]. cbn [utf8_encode]. rewrite IH.
  unfold utf8_encode_char, is_ascii in *. by ztests.
Qed.

Lemma always_safe_ascii c : always_safe c = true -> is_ascii c.
Proof. intros H%always_safe_range. unfold is_ascii. lia. Qed.

(** X3.  A file name is made of ASCII letters, digits, [_.-~] and [%]
    only; and a URL made of letters, digits and [_.-~] only is its own
    file name. *)
Theorem filename_alphabet (url filename : pystr) :
  encode_url_to_filename url = Some filename ->
  Forall (fun c => always_safe c = true \/ c = PERCENT) filename
  /\ (forallb always_safe url = true -> filename = url).
Proof.
  intros Hf. split.
  - eapply Forall_impl; [by eapply quote_chars|].
    intros c [?|[?|Hhex]]; [by left|by right|left].
    unfold always_safe. apply orb_true_iff. left. apply orb_true_iff. left.
    apply orb_true_iff. left. apply orb_true_iff. left.
    destruct Hhex; [apply orb_true_iff; right|
                    apply orb_true_iff; left; apply orb_true_iff; left];
      apply andb_true_iff; rewrite !Z.leb_le; lia.
  - intros Hsafe. revert Hf. unfold encode_url_to_filename, quote.
    destruct url as [|c s]; [by intros [= <-]|].
    rewrite utf8_encode_ascii.
    + unfold quote_from_bytes. rewrite Hsafe. by intros [= <-].
    + apply Forall_forall. intros x Hx. apply always_safe_ascii.
      rewrite forallb_forall in Hsafe. apply Hsafe. by apply list_elem_of_In.
Qed.

Lemma filename_alphabet_witness :
  Forall (fun c => always_safe c = true \/ c = PERCENT) (lit "a-b_c.d~9")
  /\ (forallb always_safe (lit "a-b_c.d~9") = true
      -> lit "a-b_c.d~9" = lit "a-b_c.d~9").
Proof.
  apply (filename_alphabet (lit "a-b_c.d~9") (lit "a-b_c.d~9")). reflexivity.
Defined.

Lemma utf8_encode_char_length c bs :
  utf8_encode_char c = Some bs -> (1 <= length bs <= 4)%nat.
Proof.
  unfold utf8_encode_char. repeat case_match; try done;
    intros [= <-]; cbn [length]; lia.
Qed.

Lemma utf8_encode_length s bs :
  utf8_encode s = Some bs -> (length s <= length bs <= 4 * length s)%nat.
Proof.
  revert bs. induction s as [|c s IH]; intros bs; cbn [utf8_encode].
  { intros [= <-]. cbn. lia. }
  destruct (utf8_encode_char c) as [b|] eqn:Hc; [|done].
  destruct (utf8_encode s) as [bs'|]; [|done]. intros [= <-].
  apply utf8_encode_char_length in Hc. specialize (IH _ eq_refl).
  rewrite length_app. cbn [length]. lia.
Qed.

Lemma flat_map_quoter_length bs :
  (length bs <= length (flat_map quoter bs) <= 3 * length bs)%nat.
Proof.
  induction bs as [|b bs IH]; [cbn; lia|]. cbn [flat_map].
  rewrite length_app. unfold quoter at 1 3.
  destruct (always_safe b); cbn [length]; lia.
Qed.

(** X4.  A file name has at least as many characters as the URL and at
    most twelve times as many (four UTF-8 bytes for a code point, three
    characters for a byte). *)
Theorem filename_length (url filename : pystr) :
  encode_url_to_filename url = Some filename ->
  (length url <= length filename <= 12 * length url)%nat.
Proof.
  unfold encode_url_to_filename, quote.
  destruct url as [|c s]; [intros [= <-]; cbn; lia|].
  destruct (utf8_encode (c :: s)) as [bs|] eqn:He; [|done].
  intros [= <-]. rewrite quote_from_bytes_flat_map.
  apply utf8_encode_length in He.
  pose proof (flat_map_quoter_length bs). lia.
Qed.

Lemma filename_length_witness :
  (length (lit "http://a b") <= length (lit "http%3A%2F%2Fa%20b")
   <= 12 * length (lit "http://a b"))%nat.
Proof.
  apply (filename_length (lit "http://a b") (lit "http%3A%2F%2Fa%20b")).
  reflexivity.
Defined.

(** ** Provider selection and the filter, further *)

Lemma lower_char_idem c : flat_map lower_char (lower_char c) = lower_char c.
Proof.
  unfold lower_char at 2.
  destruct (Z.leb_spec 65 c), (Z.leb_spec c 90); cbn [andb];
    (destruct (Z.eqb_spec c 8490) as [->|?]; [done|]);
    (destruct (Z.eqb_spec c 304) as [->|?]; [done|]);
    cbn [flat_map]; unfold lower_char; by ztests.
Qed.

Lemma str_lower_idem s : str_lower (str_lower s) = str_lower s.
Proof.
  unfold str_lower. induction s as [|c s IH]; [done|]. cbn [flat_map].
  by rewrite flat_map_app, lower_char_idem, IH.
Qed.

Lemma lower_char_nonempty c : lower_char c <> [].
Proof. unfold lower_char. by repeat case_match. Qed.

(** X5.  The provider identifier is read without regard to case, and a
    missing or empty identifier stands for [duckduckgo]. *)
Theorem get_urls_provider_normalised (w : world) (k : nat) (query : pystr)
    (n : Z) :
  get_urls w k query n None = get_urls w k query n (Some (lit "duckduckgo"))
  /\ get_urls w k query n (Some []) = get_urls w k query n (Some (lit "duckduckgo"))
  /\ (forall provider,
        get_urls w k query n (Some (str_lower provider))
        = get_urls w k query n (Some provider)).
Proof.
  split_and!; [done..|]. intros provider. unfold get_urls.
  destruct provider as [|c p]; [done|].
  assert (provider_or_default (Some (str_lower (c :: p))) = str_lower (c :: p))
    as ->.
  { unfold str_lower. cbn [flat_map].
    pose proof (lower_char_nonempty c). by destruct (lower_char c). }
  cbn [provider_or_default]. by rewrite str_lower_idem.
Qed.

Lemma elem_of_filter_truthy (results : list (option pystr)) u :
  Some u ∈ List.filter truthy results -> Some u ∈ results.
Proof. rewrite !list_elem_of_In, filter_In. tauto. Qed.

(** X6.  Whatever [get_urls] returns was returned by the provider that
    the identifier selects: each URL is an [http://] or [https://] entry
    of that provider's answer, and no URL occurs twice.  In particular a
    provider that raises gives the empty list. *)
Theorem get_urls_provenance (w : world) (k : nat) (query : pystr) (n : Z)
    (provider : option pystr) :
  NoDup (get_urls w k query n provider)
  /\ forall u, u ∈ get_urls w k query n provider ->
       is_http u = true
       /\ exists results,
            Some u ∈ results
            /\ ((str_lower (provider_or_default provider) = lit "duckduckgo"
                 /\ ddgs_text w k query n = Some results)
                \/ (str_lower (provider_or_default provider) = lit "google"
                    /\ google_search w k query n = Some results)).
Proof.
  split; [apply get_urls_NoDup|]. intros u. unfold get_urls.
  rewrite elem_of_clean_urls. intros [Hin Hhttp]. split; [done|].
  destruct (bool_decide_reflect
              (str_lower (provider_or_default provider) = lit "duckduckgo"))
    as [Hd|Hd].
  { destruct (ddgs_text w k query n) as [results|] eqn:Hr; [|by inversion Hin].
    exists results. split; [by apply elem_of_filter_truthy|]. by left. }
  destruct (bool_decide_reflect
              (str_lower (provider_or_default provider) = lit "google"))
    as [Hg|Hg]; [|by inversion Hin].
  destruct (google_search w k query n) as [results|] eqn:Hr; [|by inversion Hin].
  exists results. split; [by apply elem_of_filter_truthy|]. by right.
Qed.

Lemma first_occurrences_NoDup l : NoDup l -> first_occurrences l = l.
Proof.
  induction 1 as [|x l Hx _ IH]; [done|]. cbn [first_occurrences].
  rewrite IH. f_equal. clear IH. induction l as [|y l IH]; [done|].
  apply not_elem_of_cons in Hx as [Hxy Hx].
  rewrite filter_cons_True by done. f_equal. by apply IH.
Qed.

Lemma http_entries_Some l :
  Forall (fun u => is_http u = true) l -> http_entries (Some <$> l) = l.
Proof.
  induction 1 as [|u l Hu _ IH]; [done|]. cbn [fmap list_fmap].
  rewrite http_entries_cons, Hu. f_equal. apply IH.
Qed.

(** X7.  The filter of [get_urls] is idempotent: filtering its own output
    again changes nothing. *)
Theorem clean_urls_idempotent (urls : list (option pystr)) :
  clean_urls (Some <$> clean_urls urls) = clean_urls urls.
Proof.
  rewrite (clean_urls_spec (Some <$> _)).
  rewrite http_entries_Some by apply clean_urls_is_http.
  apply first_occurrences_NoDup, clean_urls_NoDup.
Qed.

(** ** Runs: no-op, failure, pauses, files *)



Lemma fetch_batch_raises w folder urls st :
  Forall (fun u => is_http u = true) urls ->
  ~ Forall encodable urls ->
  fetch_batch w st urls folder = Raised UnicodeEncodeError.
Proof.
  intros Hhttp. revert st.
  induction Hhttp as [|url urls Hurl _ IH]; intros st Henc.
  { destruct Henc. constructor. }
  cbn [fetch_batch]. rewrite Hurl. cbn [negb].
  destruct (encode_url_to_filename url) as [name|] eqn:Hname.
  - destruct (fetch_and_save_returns w st url folder) as (fs & r & ->);
      [by eexists|].
    cbn [mbind outcome_bind]. apply IH. intros Hrest. apply Henc.
    constructor; [by eexists|done].
  - by rewrite fetch_and_save_raises.
Qed.

Lemma fetch_queries_raises w n provider folder queries st :
  ~ Forall (Forall encodable) (schedule w (searches st) queries n provider) ->
  fetch_queries w st queries n provider folder = Raised UnicodeEncodeError.
Proof.
  revert st. induction queries as [|q queries IH]; intros st Henc.
  { destruct Henc. constructor. }
  cbn [fetch_queries]. cbn [schedule] in Henc.
  pose proof (get_urls_is_http w (searches st) q n provider) as Hhttp.
  destruct (decide (Forall encodable (get_urls w (searches st) q n provider)))
    as [Hq|Hq].
  - assert (~ Forall (Forall encodable)
              (schedule w (S (searches st)) queries n provider)) as Hrest.
    { intros Hrest. apply Henc. by constructor. }
    destruct (get_urls w (searches st) q n provider) as [|u urls] eqn:Hurls.
    { by apply IH. }
    destruct (fetch_batch_returns w folder (u :: urls) (count_search st))
      as (st1 & results & -> & _ & _ & Hs1); [done..|].
    cbn [mbind outcome_bind]. apply IH. cbn. by rewrite Hs1.
  - destruct (get_urls w (searches st) q n provider) as [|u urls] eqn:Hurls.
    { destruct Hq. constructor. }
    by rewrite fetch_batch_raises.
Qed.

(** X9.  A URL that UTF-8 cannot encode is the one per-URL error that
    escapes: when the searches of a run return such a URL,
    [fetch_web_pages] raises [UnicodeEncodeError] (the file name is
    computed outside the [try]). *)
Theorem fetch_web_pages_raises (w : world) (st : state) (queries : list pystr)
    (n : Z) (provider : option pystr) (folder : pystr) :
  ~ Forall (Forall encodable) (schedule w (searches st) queries n provider) ->
  fetch_web_pages w st queries n provider folder = Raised UnicodeEncodeError.
Proof.
  intros Henc. unfold fetch_web_pages. by rewrite fetch_queries_raises.
Qed.

Lemma fetch_web_pages_raises_witness :
  fetch_web_pages world_surrogate_url init [lit "q"] 1 None DOWNLOAD_DIR
  = Raised UnicodeEncodeError.
Proof.
  apply (fetch_web_pages_raises world_surrogate_url init [lit "q"] 1 None
           DOWNLOAD_DIR).
  intros H. apply Forall_cons in H as [H _]. apply Forall_cons in H as [[f H] _].
  vm_compute in H. congruence.
Defined.

(** A run that returns had only encodable URLs to fetch. *)
Lemma fetch_web_pages_Returned_encodable w st queries n provider folder st' v :
  fetch_web_pages w st queries n provider folder = Returned (st', v) ->
  Forall (Forall encodable) (schedule w (searches st) queries n provider).
Proof.
  intros Hrun.
  destruct (decide (Forall (Forall encodable)
                      (schedule w (searches st) queries n provider)))
    as [|Hne]; [done|].
  unfold fetch_web_pages in Hrun. by rewrite fetch_queries_raises in Hrun.
Qed.


Lemma total_sleep_app tr1 tr2 :
  (total_sleep (tr1 ++ tr2) == total_sleep tr1 + total_sleep tr2)%Q.
Proof.
  induction tr1 as [|[u r|d] tr1 IH]; cbn [app total_sleep fold_right].
  - by rewrite Qplus_0_l.
  - apply IH.
  - fold (total_sleep (tr1 ++ tr2)). fold (total_sleep tr1).
    rewrite IH. by rewrite Qplus_assoc.
Qed.

Lemma inject_nat_S (n : nat) :
  (inject_Z (Z.of_nat (S n)) == 1 + inject_Z (Z.of_nat n))%Q.
Proof. by rewrite Nat2Z.inj_succ, <- Z.add_1_l, inject_Z_plus. Qed.

Lemma inject_nat_add (a b : nat) :
  (inject_Z (Z.of_nat (a + b)) == inject_Z (Z.of_nat a) + inject_Z (Z.of_nat b))%Q.
Proof. by rewrite Nat2Z.inj_add, inject_Z_plus. Qed.

Lemma total_sleep_batch_events results :
  (total_sleep (batch_events results)
   == inject_Z (Z.of_nat (length results))
      + inject_Z (Z.of_nat (length (List.filter is_failure results))))%Q.
Proof.
  induction results as [|[u r] results IH]; [done|].
  cbn [batch_events flat_map app total_sleep fold_right List.filter length].
  fold (batch_events results). fold (total_sleep (batch_events results)).
  rewrite IH, inject_nat_S. destruct r as [p|]; cbn [pacing_delay snd].
  - change (is_failure (u, Some p)) with false. cbn iota. ring.
  - change (is_failure (u, None)) with true. cbn iota. cbn [length].
    rewrite inject_nat_S. ring.
Qed.

Lemma filter_is_failure_app (l1 l2 : list (pystr * option pystr)) :
  List.filter is_failure (l1 ++ l2)
  = List.filter is_failure l1 ++ List.filter is_failure l2.
Proof. apply List.filter_app. Qed.

Lemma total_sleep_run_events batches :
  (total_sleep (run_events batches)
   == inject_Z (Z.of_nat (length (concat batches)))
      + inject_Z (Z.of_nat (length (List.filter is_failure (concat batches))))
      + inject_Z (Z.of_nat (length batches)))%Q.
Proof.
  induction batches as [|b batches IH]; [done|].
  cbn [run_events flat_map concat]. fold (run_events batches).
  rewrite <- app_assoc, !total_sleep_app, total_sleep_batch_events, IH.
  rewrite filter_is_failure_app, !length_app, !inject_nat_add.
  cbn [length]. rewrite inject_nat_S.
  change (total_sleep [EvSleep 1]) with (1 + 0)%Q. ring.
Qed.

(** X10.  The pauses of a run add up to one second for each fetch
    attempt, one more for each failed attempt, and one for each query
    whose search returned a URL. *)
Theorem fetch_web_pages_total_sleep (w : world) (st st' : state)
    (queries : list pystr) (n : Z) (provider : option pystr) (folder : pystr)
    (v : bool) :
  fetch_web_pages w st queries n provider folder = Returned (st', v) ->
  exists tr,
    trace st' = trace st ++ tr
    /\ (total_sleep tr
        == inject_Z (Z.of_nat (length (fetch_results tr)))
           + inject_Z (Z.of_nat (length (List.filter is_failure (fetch_results tr))))
           + inject_Z (Z.of_nat
               (length (filter (fun urls => urls <> [])
                          (schedule w (searches st) queries n provider)))))%Q.
Proof.
  intros Hrun.
  pose proof (fetch_web_pages_Returned_encodable _ _ _ _ _ _ _ _ Hrun) as Henc.
  destruct (fetch_web_pages_returns w st queries n provider folder Henc)
    as (st1 & batches & Hrun' & Htr & Hb).
  rewrite Hrun in Hrun'. injection Hrun' as <-.
  exists (run_events batches). split; [done|].
  rewrite total_sleep_run_events, fetch_results_run_events.
  by rewrite <- Hb, !length_map.
Qed.

Lemma fetch_web_pages_total_sleep_witness :
  exists tr,
    trace (State ∅ [EvFetch (lit "http://a.example/") None; EvSleep 2; EvSleep 1]
             1 1)
    = trace init ++ tr
    /\ (total_sleep tr
        == inject_Z (Z.of_nat (length (fetch_results tr)))
           + inject_Z (Z.of_nat (length (List.filter is_failure (fetch_results tr))))
           + inject_Z (Z.of_nat
               (length (filter (fun urls => urls <> [])
                          (schedule world_page_down (searches init) [lit "q"] 1
                             None)))))%Q.
Proof.
  apply (fetch_web_pages_total_sleep world_page_down init _ [lit "q"] 1 None
           DOWNLOAD_DIR true).
  vm_compute. reflexivity.
Defined.

(** ** What a fetch writes *)

(** X11.  After a successful [fetch_and_save] the directory holds, at the
    returned path, the UTF-8 form of the page text: decoding the file
    gives the text back, and decoding the last component of the path
    gives the URL back. *)
Theorem fetch_and_save_success (w : world) (st st' : state)
    (url folder path : pystr) :
  fetch_and_save w st url folder = Returned (st', Some path) ->
  exists name text bytes,
    encode_url_to_filename url = Some name
    /\ path = os_path_join folder name
    /\ http_get w (fetches st) url = PageText text IoOk
    /\ files st' !! path = Some bytes
    /\ utf8_decode bytes = text
    /\ decode_filename_to_url (basename path) = url.
Proof.
  unfold fetch_and_save.
  destruct (encode_url_to_filename url) as [name|] eqn:Hname; [|done].
  destruct (http_get w (fetches st) url) as [|text io]; [done|].
  destruct io; [|done|by destruct (utf8_encode text)].
  destruct (utf8_encode text) as [bytes|] eqn:Hbytes; [|done].
  intros [= <- <-]. exists name, text, bytes. split_and!; try done.
  - cbn. by rewrite lookup_insert_eq.
  - by apply utf8_decode_encode.
  - destruct (os_path_join_inside folder name) as [_ ->];
      [by eapply quote_no_slash|].
    by apply unquote_quote.
Qed.

Lemma fetch_and_save_success_witness :
  exists name text bytes,
    encode_url_to_filename (lit "http://a.example/") = Some name
    /\ lit "./downloaded/http%3A%2F%2Fa.example%2F" = os_path_join DOWNLOAD_DIR name
    /\ http_get world_page_ok (fetches init) (lit "http://a.example/")
       = PageText text IoOk
    /\ files (State {[lit "./downloaded/http%3A%2F%2Fa.example%2F" := lit "text"]}
                [EvFetch (lit "http://a.example/")
                   (Some (lit "./downloaded/http%3A%2F%2Fa.example%2F"))] 0 1)
         !! lit "./downloaded/http%3A%2F%2Fa.example%2F" = Some bytes
    /\ utf8_decode bytes = text
    /\ decode_filename_to_url (basename (lit "./downloaded/http%3A%2F%2Fa.example%2F"))
       = lit "http://a.example/".
Proof.
  apply (fetch_and_save_success world_page_ok init _ (lit "http://a.example/")
           DOWNLOAD_DIR (lit "./downloaded/http%3A%2F%2Fa.example%2F")).
  vm_compute. reflexivity.
Defined.


(** The loops again, for steps that need to know that only HTTP(S) URLs
    are fetched. *)
Section loops_http.
Context (w : world) (folder : pystr) (R : relation state) `{!PreOrder R}.
Hypothesis fetch_step : forall st url st' r,
  is_http url = true ->
  fetch_and_save w st url folder = Returned (st', r) -> R st st'.
Hypothesis sleep_step : forall st d, R st (sleep d st).
Hypothesis search_step : forall st, R st (count_search st).

Lemma fetch_batch_preserves_http urls st st' :
  fetch_batch w st urls folder = Returned st' -> R st st'.
Proof.
  revert st. induction urls as [|url urls IH]; intros st; cbn [fetch_batch].
  { by intros [= ->]. }
  destruct (is_http url) eqn:Hurl; cbn [negb]; [|apply IH].
  destruct (fetch_and_save w st url folder) as [[st1 r]|e] eqn:Hf; [|done].
  cbn [mbind outcome_bind]. intros Hrest%IH.
  etrans; [by eapply fetch_step|]. etrans; [apply sleep_step|done].
Qed.

Lemma fetch_queries_preserves_http queries n provider st st' :
  fetch_queries w st queries n provider folder = Returned st' -> R st st'.
Proof.
  revert st. induction queries as [|q queries IH]; intros st;
    cbn [fetch_queries].
  { by intros [= ->]. }
  destruct (get_urls w (searches st) q n provider) as [|u urls].
  { intros Hrest%IH. etrans; [apply search_step|done]. }
  destruct (fetch_batch w (count_search st) (u :: urls) folder)
    as [st1|e] eqn:Hb; [|done].
  cbn [mbind outcome_bind]. intros Hrest%IH.
  apply fetch_batch_preserves_http in Hb.
  etrans; [apply search_step|]. etrans; [done|].
  etrans; [apply sleep_step|done].
Qed.
End loops_http.

#[local] Instance writes_inside_preorder folder : PreOrder (writes_inside folder).
Proof.
  split.
  - intros st. split; [done|]. exists []. by rewrite app_nil_r.
  - intros st1 st2 st3 (Hk1 & tr1 & Ht1 & H1) (Hk2 & tr2 & Ht2 & H2).
    split; [by intros p Hp%Hk1%Hk2|].
    exists (tr1 ++ tr2). split; [by rewrite Ht2, Ht1, app_assoc|].
    intros p Hp. setoid_rewrite attempted_app. setoid_rewrite elem_of_app.
    destruct (decide (files st3 !! p = files st2 !! p)) as [Heq|Hne].
    + rewrite Heq in Hp. destruct (H1 p Hp) as (u & name & ? & ?).
      exists u, name. tauto.
    + destruct (H2 p Hne) as (u & name & ? & ?). exists u, name. tauto.
Qed.

Lemma fetch_and_save_keeps w st url folder st' r p :
  fetch_and_save w st url folder = Returned (st', r) ->
  is_Some (files st !! p) -> is_Some (files st' !! p).
Proof.
  unfold fetch_and_save.
  destruct (encode_url_to_filename url) as [name|]; [|done].
  destruct (http_get w (fetches st) url) as [|text []];
    try destruct (utf8_encode text); intros [= <- <-] Hp; cbn; try done;
    repeat (rewrite lookup_insert; case_decide; [by eexists|]); done.
Qed.

Lemma fetch_web_pages_writes_inside w st queries n provider folder st' v :
  fetch_web_pages w st queries n provider folder = Returned (st', v) ->
  writes_inside folder st st'.
Proof.
  unfold fetch_web_pages.
  destruct (fetch_queries w st queries n provider folder) as [st1|e] eqn:Hq;
    [|done].
  intros [= <- <-]. revert Hq.
  apply (fetch_queries_preserves_http w folder (writes_inside folder)).
  - intros s url s' r Hurl Hf. split; [intros p; by eapply fetch_and_save_keeps|].
    destruct (encode_url_to_filename url) as [name|] eqn:Hname;
      [|by rewrite fetch_and_save_raises in Hf].
    destruct (fetch_and_save_returns w s url folder) as (fs & r' & Hf');
      [by eexists|].
    exists [EvFetch url r]. split.
    { rewrite Hf in Hf'. by injection Hf' as -> ->. }
    intros p Hp. exists url, name. split_and!; [set_solver|done..|].
    destruct (decide (p = os_path_join folder name)) as [|Hne]; [done|].
    destruct Hp. by eapply fetch_and_save_files.
  - intros s d. split; [done|]. by exists [EvSleep d].
  - intros s. split; [done|]. exists []. by rewrite app_nil_r.
Qed.

(** X12.  A run never deletes a file, and every file it creates or
    changes lies directly in the download folder under the name of an
    HTTP(S) URL it attempted: the last component of the path is that
    name, and decoding it gives the URL. *)
Theorem fetch_web_pages_files (w : world) (st st' : state)
    (queries : list pystr) (n : Z) (provider : option pystr) (folder : pystr)
    (v : bool) :
  fetch_web_pages w st queries n provider folder = Returned (st', v) ->
  (forall p, is_Some (files st !! p) -> is_Some (files st' !! p))
  /\ forall p, files st' !! p <> files st !! p ->
       exists url name,
         url ∈ attempted (trace st')
         /\ is_http url = true
         /\ encode_url_to_filename url = Some name
         /\ p = os_path_join folder name
         /\ basename p = name
         /\ decode_filename_to_url name = url.
Proof.
  intros (Hkeep & tr & Htr & Hin)%fetch_web_pages_writes_inside.
  split; [done|]. intros p Hp.
  destruct (Hin p Hp) as (url & name & Hurl & Hhttp & Hname & ->).
  exists url, name. split_and!; try done.
  - rewrite Htr, attempted_app. set_solver.
  - apply os_path_join_inside. by eapply quote_no_slash.
  - by apply unquote_quote.
Qed.

Lemma fetch_web_pages_files_witness :
  (forall p, is_Some (files init !! p) ->
     is_Some (files (State {[lit "./downloaded/http%3A%2F%2Fa.example%2F" := lit "text"]}
                [EvFetch (lit "http://a.example/")
                   (Some (lit "./downloaded/http%3A%2F%2Fa.example%2F"));
                 EvSleep 1; EvSleep 1] 1 1) !! p))
  /\ forall p,
       files (State {[lit "./downloaded/http%3A%2F%2Fa.example%2F" := lit "text"]}
                [EvFetch (lit "http://a.example/")
                   (Some (lit "./downloaded/http%3A%2F%2Fa.example%2F"));
                 EvSleep 1; EvSleep 1] 1 1) !! p
       <> files init !! p ->
       exists url name,
         url ∈ attempted
                 (trace (State {[lit "./downloaded/http%3A%2F%2Fa.example%2F" := lit "text"]}
                    [EvFetch (lit "http://a.example/")
                       (Some (lit "./downloaded/http%3A%2F%2Fa.example%2F"));
                     EvSleep 1; EvSleep 1] 1 1))
         /\ is_http url = true
         /\ encode_url_to_filename url = Some name
         /\ p = os_path_join DOWNLOAD_DIR name
         /\ basename p = name
         /\ decode_filename_to_url name = url.
Proof.
  apply (fetch_web_pages_files world_page_ok init _ [lit "q"] 1 None
           DOWNLOAD_DIR true).
  vm_compute. reflexivity.
Defined.

#[local] Instance same_files_preorder : PreOrder same_files.
Proof.
  split; [done|]. unfold same_files. intros s1 s2 s3 H12 H23. by rewrite H23.
Qed.

(** X13.  When every request fails, or no file can be opened, a run
    leaves the files as they were. *)
Theorem fetch_web_pages_all_fail (w : world) (st st' : state)
    (queries : list pystr) (n : Z) (provider : option pystr) (folder : pystr)
    (v : bool) :
  (forall k url, http_get w k url = RequestRaises
                 \/ exists text, http_get w k url = PageText text OpenRaises) ->
  fetch_web_pages w st queries n provider folder = Returned (st', v) ->
  files st' = files st.
Proof.
  intros Hw. unfold fetch_web_pages.
  destruct (fetch_queries w st queries n provider folder) as [st1|e] eqn:Hq;
    [|done].
  intros [= <- <-]. revert Hq.
  apply (fetch_queries_preserves w folder same_files).
  - intros s url s' r. unfold fetch_and_save, same_files.
    destruct (encode_url_to_filename url); [|done].
    destruct (Hw (fetches s) url) as [->|[text ->]]; by intros [= <- <-].
  - done.
  - done.
Qed.

Lemma fetch_web_pages_all_fail_witness :
  files (State ∅ [EvFetch (lit "http://a.example/") None; EvSleep 2; EvSleep 1]
           1 1)
  = files init.
Proof.
  apply (fetch_web_pages_all_fail world_page_down init _ [lit "q"] 1 None
           DOWNLOAD_DIR true).
  - intros k url. by left.
  - vm_compute. reflexivity.
Defined.

(** ** [remove_temp_files] *)











(** ** The list of models offered by app.py *)

(** X16.  [safe_ollama_models] never returns an empty list, so that the
    first option of the select box exists.  It returns either the one
    fallback name, or exactly the listed models with a non-empty name
    that does not contain [nomic-embed-text]. *)
Theorem safe_ollama_models_spec (model_name : pystr) (ollama : ollama_client) :
  safe_ollama_models model_name ollama <> []
  /\ (safe_ollama_models model_name ollama = [model_name]
      \/ exists entries,
           ollama = OllamaModels entries
           /\ forall m,
                m ∈ safe_ollama_models model_name ollama
                <-> Some m ∈ entries /\ m <> []
                    /\ is_substring EMBEDDING_MODEL m = false).
Proof.
  unfold safe_ollama_models.
  destruct ollama as [| |entries]; [split; [done|by left]..|].
  set (models := List.filter _ _).
  assert (forall m, m ∈ models
                    <-> Some m ∈ entries /\ m <> []
                        /\ is_substring EMBEDDING_MODEL m = false) as Hmem.
  { intros m. unfold models.
    rewrite list_elem_of_In, filter_In, <- list_elem_of_In, list_elem_of_omap.
    rewrite negb_true_iff. split.
    - intros [([m'|] & Hin & Hm') Hsub]; [|done].
      destruct m' as [|c m']; [done|]. cbn in Hm'. simplify_eq. done.
    - intros (Hin & Hne & Hsub). split; [|done].
      exists (Some m). split; [done|]. by destruct m. }
  destruct models as [|m ms] eqn:Hmodels; [split; [done|by left]|].
  split; [done|]. right. by exists entries.
Qed.

(** ** The line-splitting tier of [extract_queries] *)







Lemma linebreak_is_space c : is_linebreak c = true -> is_space c = true.
Proof.
  unfold is_linebreak, is_space.
  rewrite !orb_true_iff, !andb_true_iff, !Z.leb_le, !Z.eqb_eq. lia.
Qed.





(** ** The JSON tier of [extract_queries] *)

Lemma scan_string_plain fuel acc q rest :
  (length q < fuel)%nat -> Forall (fun c => plain_char c = true) q ->
  scan_string fuel acc (q ++ 34 :: rest) = Parsed (acc ++ q) rest.
Proof.
  intros Hfuel Hq. revert fuel acc Hfuel.
  induction Hq as [|c q Hc _ IH]; intros fuel acc Hfuel.
  { destruct fuel; [cbn in Hfuel; lia|]. cbn. by rewrite app_nil_r. }
  destruct fuel as [|fuel]; [cbn in Hfuel; lia|].
  cbn [app scan_string]. unfold plain_char in Hc.
  apply andb_true_iff in Hc as [[H32 H34]%andb_true_iff H92].
  apply negb_true_iff in H34, H92. rewrite H34, H92.
  apply Z.leb_le in H32. rewrite (proj2 (Z.ltb_ge c 32)) by done.
  rewrite IH by (cbn [length] in Hfuel; lia). by rewrite <- app_assoc.
Qed.

Lemma parse_string_plain q rest :
  Forall (fun c => plain_char c = true) q ->
  parse_string (q ++ 34 :: rest) = Parsed q rest.
Proof.
  intros Hq. unfold parse_string.
  rewrite scan_string_plain; [done| |done]. rewrite length_app. lia.
Qed.

Lemma parse_value_json_string fuel q rest :
  Forall (fun c => plain_char c = true) q ->
  parse_value (S fuel) (json_string q ++ rest) = Parsed (JString q) rest.
Proof.
  intros Hq. unfold json_string. cbn [app parse_value].
  change (34 =? 34) with true. cbn iota.
  rewrite <- app_assoc. cbn [app]. by rewrite parse_string_plain.
Qed.

Lemma skip_ws_json_string q rest :
  skip_ws (json_string q ++ rest) = json_string q ++ rest.
Proof. done. Qed.

Lemma parse_elements_S fuel acc s :
  parse_elements (S fuel) acc s
  = match parse_value fuel s with
    | Parsed v rest =>
        match skip_ws rest with
        | c :: r =>
            if c =? 93 then Parsed (JArray (acc ++ [v])) r
            else if c =? 44 then parse_elements fuel (acc ++ [v]) (skip_ws r)
            else Malformed
        | [] => Malformed
        end
    | Malformed => Malformed
    | OutOfFuel => OutOfFuel
    end.
Proof. done. Qed.

Lemma skip_ws_json_items q qs rest :
  skip_ws (json_items (q :: qs) ++ rest) = json_items (q :: qs) ++ rest.
Proof. by destruct qs. Qed.

Lemma parse_elements_json_items fuel acc q qs rest :
  (length (q :: qs) < fuel)%nat ->
  Forall (Forall (fun c => plain_char c = true)) (q :: qs) ->
  parse_elements fuel acc (json_items (q :: qs) ++ 93 :: rest)
  = Parsed (JArray (acc ++ List.map JString (q :: qs))) rest.
Proof.
  revert fuel acc q. induction qs as [|q' qs IH]; intros fuel acc q Hfuel Hq.
  - destruct fuel as [|[|fuel]]; [cbn in Hfuel; lia..|].
    apply Forall_cons in Hq as [Hq _].
    rewrite parse_elements_S. cbn [json_items].
    by rewrite parse_value_json_string.
  - destruct fuel as [|[|fuel]]; [cbn in Hfuel; lia..|].
    apply Forall_cons in Hq as [Hq Hqs].
    change (json_items (q :: q' :: qs))
      with (json_string q ++ [44; 32] ++ json_items (q' :: qs)).
    rewrite parse_elements_S, <- !app_assoc.
    rewrite parse_value_json_string by done.
    change (skip_ws ([44; 32] ++ json_items (q' :: qs) ++ 93 :: rest))
      with (44 :: 32 :: json_items (q' :: qs) ++ 93 :: rest).
    change (44 =? 93) with false. change (44 =? 44) with true. cbn iota.
    change (skip_ws (32 :: json_items (q' :: qs) ++ 93 :: rest))
      with (skip_ws (json_items (q' :: qs) ++ 93 :: rest)).
    rewrite skip_ws_json_items.
    rewrite IH; [|cbn [length] in *; lia|done].
    by rewrite <- app_assoc.
Qed.

Lemma parse_value_S_object fuel r :
  parse_value (S fuel) (123 :: r)
  = match skip_ws r with
    | c1 :: r1 =>
        if c1 =? 125 then Parsed (JObject []) r1
        else if c1 =? 34 then parse_members fuel [] r1
        else Malformed
    | [] => Malformed
    end.
Proof. done. Qed.

Lemma parse_value_S_array fuel r :
  parse_value (S fuel) (91 :: r)
  = match skip_ws r with
    | c1 :: r1 =>
        if c1 =? 93 then Parsed (JArray []) r1
        else parse_elements fuel [] (c1 :: r1)
    | [] => Malformed
    end.
Proof. done. Qed.

Lemma parse_members_S fuel acc s :
  parse_members (S fuel) acc s
  = match parse_string s with
    | Parsed key rest =>
        match skip_ws rest with
        | c :: r =>
            if c =? 58 then
              match parse_value fuel (skip_ws r) with
              | Parsed v rest1 =>
                  match skip_ws rest1 with
                  | c1 :: r1 =>
                      if c1 =? 125 then Parsed (JObject (acc ++ [(key, v)])) r1
                      else if c1 =? 44 then
                        match skip_ws r1 with
                        | c2 :: r2 =>
                            if c2 =? 34
                            then parse_members fuel (acc ++ [(key, v)]) r2
                            else Malformed
                        | [] => Malformed
                        end
                      else Malformed
                  | [] => Malformed
                  end
              | Malformed => Malformed
              | OutOfFuel => OutOfFuel
              end
            else Malformed
        | [] => Malformed
        end
    | Malformed => Malformed
    | OutOfFuel => OutOfFuel
    end.
Proof. done. Qed.

Lemma json_items_cons q qs rest :
  exists r, json_items (q :: qs) ++ rest = 34 :: r.
Proof. destruct qs; by eexists. Qed.

(** The array of the reply, from its opening bracket. *)
Lemma parse_value_json_array fuel qs rest :
  (length qs < fuel)%nat ->
  Forall (Forall (fun c => plain_char c = true)) qs ->
  parse_value (S fuel) (91 :: json_items qs ++ 93 :: rest)
  = Parsed (JArray (List.map JString qs)) rest.
Proof.
  intros Hfuel Hqs. rewrite parse_value_S_array.
  destruct qs as [|q qs]; [done|].
  rewrite skip_ws_json_items.
  destruct (json_items_cons q qs (93 :: rest)) as [r Hr].
  rewrite Hr. change (34 =? 93) with false. cbn iota. rewrite <- Hr.
  by rewrite (parse_elements_json_items fuel [] q qs rest).
Qed.

Lemma parse_value_queries_reply fuel qs :
  (length qs < fuel)%nat ->
  Forall (Forall (fun c => plain_char c = true)) qs ->
  parse_value (S (S (S fuel))) (queries_reply qs)
  = Parsed (JObject [(lit "queries", JArray (List.map JString qs))]) [].
Proof.
  intros Hfuel Hqs. unfold queries_reply.
  change ([123] ++ json_string (lit "queries") ++ [58; 32; 91]
          ++ json_items qs ++ [93; 125])
    with (123 :: 34 :: lit "queries"
          ++ 34 :: 58 :: 32 :: 91 :: json_items qs ++ 93 :: [125]).
  rewrite parse_value_S_object.
  change (skip_ws (34 :: ?s)) with (34 :: s).
  change (34 =? 125) with false. change (34 =? 34) with true. cbn iota.
  rewrite parse_members_S.
  rewrite parse_string_plain
    by (apply Forall_forall; intros c Hc; revert Hc;
        rewrite list_elem_of_In; vm_compute; intuition (by subst)).
  change (skip_ws (58 :: ?s)) with (58 :: s).
  change (58 =? 58) with true. cbn iota.
  change (skip_ws (32 :: 91 :: ?s)) with (91 :: s).
  by rewrite parse_value_json_array.
Qed.

Lemma length_json_items qs : (length qs <= length (json_items qs))%nat.
Proof.
  induction qs as [|q [|q' qs] IH]; [done| |].
  - cbn. lia.
  - change (json_items (q :: q' :: qs))
      with (json_string q ++ [44; 32] ++ json_items (q' :: qs)).
    rewrite !length_app. cbn [length] in *. lia.
Qed.

Lemma json_loads_queries_reply qs :
  Forall (Forall (fun c => plain_char c = true)) qs ->
  json_loads (queries_reply qs)
  = Some (JObject [(lit "queries", JArray (List.map JString qs))]).
Proof.
  intros Hqs. unfold json_loads.
  assert (startswith [65279] (queries_reply qs) = false) as -> by done.
  assert (skip_ws (queries_reply qs) = queries_reply qs) as -> by done.
  assert (length qs + 3 <= length (queries_reply qs))%nat as Hlen.
  { unfold queries_reply. rewrite !length_app.
    pose proof (length_json_items qs). cbn [length]. lia. }
  assert (json_fuel (queries_reply qs)
          = S (S (S (2 * length (queries_reply qs) - 2)))) as ->
    by (unfold json_fuel; lia).
  by rewrite parse_value_queries_reply by (done || lia).
Qed.

(** X18.  When the chat model replies with the schema's object
    [{"queries": [...]}] whose strings need no escape, [extract_queries]
    returns exactly the listed queries, in order (none when the list is
    empty). *)
Theorem extract_queries_schema_reply (rt : runtime) (query : pystr)
    (model : option pystr) (qs : list pystr) :
  Forall (Forall (fun c => plain_char c = true)) qs ->
  chat_content rt (model_or_default rt model)
    (PROMPT_format rt (today rt) query) = Some (queries_reply qs) ->
  extract_queries rt query model = qs.
Proof.
  intros Hqs Hchat. unfold extract_queries. rewrite Hchat.
  change (queries_reply qs) with (123 :: tl (queries_reply qs)) at 1.
  cbn iota. change (123 :: tl (queries_reply qs)) with (queries_reply qs).
  rewrite json_loads_queries_reply by done. cbn [mbind option_bind].
  unfold queries_of_json, dict_get. cbn [fold_left fst snd].
  rewrite bool_decide_eq_true_2 by done.
  rewrite map_map. cbn [py_str]. by rewrite map_id.
Qed.

Lemma extract_queries_schema_reply_witness :
  extract_queries
    (Runtime (lit "llama3") (fun date query => query) (lit "2025-01-01")
       (fun _ _ _ => Some (queries_reply [lit "capital of France"; lit "Paris"]))
       (fun _ => []))
    (lit "capital of France") None
  = [lit "capital of France"; lit "Paris"].
Proof.
  apply (extract_queries_schema_reply
           (Runtime (lit "llama3") (fun date query => query) (lit "2025-01-01")
              (fun _ _ _ => Some (queries_reply [lit "capital of France"; lit "Paris"]))
              (fun _ => []))
           (lit "capital of France") None
           [lit "capital of France"; lit "Paris"]).
  - repeat constructor.
  - reflexivity.
Defined.

(** ** Where the queries come from *)

Lemma queries_of_json_Some rt v qs :
  queries_of_json rt v = Some qs ->
  exists items,
    qs = List.map (py_str rt) items
    /\ (v = JArray items
        \/ exists members,
             v = JObject members
             /\ dict_get (lit "queries") members = Some (JArray items)).
Proof.
  destruct v as [| | | | |items|members]; try done; cbn [queries_of_json].
  - intros [= <-]. exists items. split; [done|by left].
  - destruct (dict_get (lit "queries") members) as [[| | | | |items|]|] eqn:Hget;
      try done.
    intros [= <-]. exists items. split; [done|]. right. by exists members.
Qed.

(** X19.  [extract_queries] invents nothing: each query it returns is the
    question itself, a stripped line of the reply, or [str] of an item of
    the list decoded from the reply (the array itself, or the [queries]
    member of the object). *)
Theorem extract_queries_provenance (rt : runtime) (query : pystr)
    (model : option pystr) (q : pystr) :
  q ∈ extract_queries rt query model ->
  q = query
  \/ exists content,
       chat_content rt (model_or_default rt model)
         (PROMPT_format rt (today rt) query) = Some content
       /\ (q ∈ content_lines content
           \/ exists v items item,
                json_loads content = Some v
                /\ (v = JArray items
                    \/ exists members,
                         v = JObject members
                         /\ dict_get (lit "queries") members
                            = Some (JArray items))
                /\ item ∈ items
                /\ q = py_str rt item).
Proof.
  unfold extract_queries.
  destruct (chat_content _ _ _) as [[|c content]|] eqn:Hchat;
    [intros ->%list_elem_of_singleton; by left|
     |intros ->%list_elem_of_singleton; by left].
  destruct (json_loads (c :: content)) as [v|] eqn:Hjson;
    cbn [mbind option_bind].
  - destruct (queries_of_json rt v) as [qs|] eqn:Hq.
    + apply queries_of_json_Some in Hq as (items & -> & Hv).
      rewrite list_elem_of_In, in_map_iff.
      intros (item & <- & Hitem%list_elem_of_In).
      right. exists (c :: content). split; [done|]. right.
      by exists v, items, item.
    + destruct (content_lines (c :: content)) as [|l ls] eqn:Hl; 
      [intros ->%list_elem_of_singleton; by left|].
      intros Hin. right. exists (c :: content). split; [done|]. left.
      by rewrite Hl.
  - destruct (content_lines (c :: content)) as [|l ls] eqn:Hl; 
      [intros ->%list_elem_of_singleton; by left|].
    intros Hin. right. exists (c :: content). split; [done|]. left.
    by rewrite Hl.
Qed.

Lemma extract_queries_provenance_witness :
  lit "capital of France" = lit "capital of France"
  \/ exists content,
       chat_content runtime_unreachable
         (model_or_default runtime_unreachable None)
         (PROMPT_format runtime_unreachable (today runtime_unreachable)
            (lit "capital of France")) = Some content
       /\ (lit "capital of France" ∈ content_lines content
           \/ exists v items item,
                json_loads content = Some v
                /\ (v = JArray items
                    \/ exists members,
                         v = JObject members
                         /\ dict_get (lit "queries") members
                            = Some (JArray items))
                /\ item ∈ items
                /\ lit "capital of France" = py_str runtime_unreachable item).
Proof.
  apply (extract_queries_provenance runtime_unreachable
           (lit "capital of France") None (lit "capital of France")).
  vm_compute. left.
Defined.

(** ** Fetching a URL again *)

(** X20.  Fetching the same URL twice with success leaves one file for
    it, at the same path, holding the text of the second fetch: the
    directory is as if only the second fetch had been made. *)
Theorem fetch_and_save_twice (w : world) (st st1 st2 : state)
    (url folder path1 path2 : pystr) :
  fetch_and_save w st url folder = Returned (st1, Some path1) ->
  fetch_and_save w st1 url folder = Returned (st2, Some path2) ->
  path1 = path2
  /\ exists text bytes,
       http_get w (fetches st1) url = PageText text IoOk
       /\ utf8_encode text = Some bytes
       /\ files st2 = <[path2 := bytes]> (files st).
Proof.
  unfold fetch_and_save.
  destruct (encode_url_to_filename url) as [name|]; [|done].
  destruct (http_get w (fetches st) url) as [|text1 io1]; [done|].
  destruct io1; [|done|by destruct (utf8_encode text1)].
  destruct (utf8_encode text1) as [bytes1|]; [|done].
  intros [= <- <-].
  destruct (http_get w (fetches (log _ _)) url) as [|text2 io2]; [done|].
  destruct io2; [|done|by destruct (utf8_encode text2)].
  destruct (utf8_encode text2) as [bytes2|] eqn:Hb2; [|done].
  intros [= <- <-]. split; [done|]. exists text2, bytes2.
  split_and!; [done..|]. cbn. by rewrite !insert_insert_eq.
Qed.

Lemma fetch_and_save_twice_witness :
  lit "./downloaded/http%3A%2F%2Fa.example%2F"
  = lit "./downloaded/http%3A%2F%2Fa.example%2F"
  /\ exists text bytes,
       http_get world_page_ok
         (fetches (State {[lit "./downloaded/http%3A%2F%2Fa.example%2F" := lit "text"]}
                     [EvFetch (lit "http://a.example/")
                        (Some (lit "./downloaded/http%3A%2F%2Fa.example%2F"))] 0 1))
         (lit "http://a.example/") = PageText text IoOk
       /\ utf8_encode text = Some bytes
       /\ files (State {[lit "./downloaded/http%3A%2F%2Fa.example%2F" := lit "text"]}
                   [EvFetch (lit "http://a.example/")
                      (Some (lit "./downloaded/http%3A%2F%2Fa.example%2F"));
                    EvFetch (lit "http://a.example/")
                      (Some (lit "./downloaded/http%3A%2F%2Fa.example%2F"))] 0 2)
          = <[lit "./downloaded/http%3A%2F%2Fa.example%2F" := bytes]> (files init).
Proof.
  apply (fetch_and_save_twice world_page_ok init _ _ (lit "http://a.example/")
           DOWNLOAD_DIR); vm_compute; reflexivity.
Defined.


Lemma json_loads_array_reply qs :
  Forall (Forall (fun c => plain_char c = true)) qs ->
  json_loads (91 :: json_items qs ++ [93])
  = Some (JArray (List.map JString qs)).
Proof.
  intros Hqs. unfold json_loads.
  assert (startswith [65279] (91 :: json_items qs ++ [93]) = false) as -> by done.
  assert (skip_ws (91 :: json_items qs ++ [93]) = 91 :: json_items qs ++ [93])
    as -> by done.
  assert (json_fuel (91 :: json_items qs ++ [93])
          = S (2 * length (91 :: json_items qs ++ [93]))) as -> by done.
  rewrite parse_value_json_array; [done| |done].
  pose proof (length_json_items qs). cbn [length]. rewrite length_app. lia.
Qed.

(** X21.  When the chat model replies with a bare JSON array of strings
    that need no escape, [extract_queries] returns exactly those strings,
    in order. *)
Theorem extract_queries_array_reply (rt : runtime) (query : pystr)
    (model : option pystr) (qs : list pystr) :
  Forall (Forall (fun c => plain_char c = true)) qs ->
  chat_content rt (model_or_default rt model)
    (PROMPT_format rt (today rt) query) = Some (91 :: json_items qs ++ [93]) ->
  extract_queries rt query model = qs.
Proof.
  intros Hqs Hchat. unfold extract_queries. rewrite Hchat.
  rewrite json_loads_array_reply by done. cbn [mbind option_bind].
  cbn [queries_of_json]. rewrite map_map. cbn [py_str]. by rewrite map_id.
Qed.

Lemma extract_queries_array_reply_witness :
  extract_queries
    (Runtime (lit "llama3") (fun date query => query) (lit "2025-01-01")
       (fun _ _ _ => Some (91 :: json_items [lit "Paris"; lit "France"] ++ [93]))
       (fun _ => []))
    (lit "capital of France") None
  = [lit "Paris"; lit "France"].
Proof.
  apply (extract_queries_array_reply
           (Runtime (lit "llama3") (fun date query => query) (lit "2025-01-01")
              (fun _ _ _ => Some (91 :: json_items [lit "Paris"; lit "France"] ++ [93]))
              (fun _ => []))
           (lit "capital of France") None [lit "Paris"; lit "France"]).
  - repeat constructor.
  - reflexivity.
Defined.

(** ** Files and successful fetches *)

(** X22.  In a world where every opened file is written in full, each
    file found after a run was there before or is the path returned by a
    fetch of the run that succeeded. *)
Theorem files_after_run (w : world) (st st' : state) (queries : list pystr)
    (n : Z) (provider : option pystr) (folder : pystr) (v : bool) :
  writes_complete w ->
  fetch_web_pages w st queries n provider folder = Returned (st', v) ->
  forall p, is_Some (files st' !! p) ->
    is_Some (files st !! p)
    \/ exists url, (url, Some p) ∈ fetch_results (trace st').
Proof.
  intros Hw Hrun p Hp.
  destruct (files_saved_by_success _ _ _ _ _ _ _ _ Hw Hrun) as (tr & Htr & Hfiles).
  destruct (Hfiles p Hp) as [?|[url Hurl]]; [by left|right].
  exists url. rewrite Htr, fetch_results_app. apply elem_of_app. by right.
Qed.

Lemma files_after_run_witness :
  is_Some (files init !! lit "./downloaded/http%3A%2F%2Fa.example%2F")
  \/ exists url,
       (url, Some (lit "./downloaded/http%3A%2F%2Fa.example%2F"))
         ∈ fetch_results
             (trace (State {[lit "./downloaded/http%3A%2F%2Fa.example%2F" := lit "text"]}
                [EvFetch (lit "http://a.example/")
                   (Some (lit "./downloaded/http%3A%2F%2Fa.example%2F"));
                 EvSleep 1; EvSleep 1] 1 1)).
Proof.
  apply (files_after_run world_page_ok init _ [lit "q"] 1 None DOWNLOAD_DIR true).
  - intros k url text io [= <- <-]. split; [done|]. vm_compute. by eexists.
  - vm_compute. reflexivity.
  - vm_compute. by eexists.
Defined.
